(** * Study assistant bot ([bot2.py]): a shallow embedding and its properties

    The bot is a single Python module.  Its handlers are embedded as
    functions in a state-and-exception monad over a [World] that holds what
    the module mutates (the [user_states] dict, the two SQLite tables, the
    [temp/] directory, the outbound messages), while everything the module
    only calls (Telegram, SQLite failures, the clock, Wikipedia, DuckDuckGo,
    Tesseract, Wolfram Alpha) is an oracle of an [Env]. *)

From Stdlib Require Import Strings.String Strings.Byte.
From stdpp Require Import gmap list.

Local Open Scope Z_scope.

(** ** Python strings

    A Python [str] is a sequence of Unicode code points; [len] and slicing
    count code points, so a [str] is a list of code points here.  Literals
    are written as in the source and decoded from the file's UTF-8. *)

Abbreviation pystr := (list N).

Fixpoint utf8_decode (bs : list N) : pystr :=
  match bs with
  | [] => []
  | b0 :: t0 =>
    if (b0 <? 128)%N then b0 :: utf8_decode t0
    else match t0 with
    | [] => []
    | b1 :: t1 =>
      if (b0 <? 224)%N
      then ((b0 mod 32) * 64 + b1 mod 64)%N :: utf8_decode t1
      else match t1 with
      | [] => []
      | b2 :: t2 =>
        if (b0 <? 240)%N
        then ((b0 mod 16) * 4096 + (b1 mod 64) * 64 + b2 mod 64)%N
               :: utf8_decode t2
        else match t2 with
        | [] => []
        | b3 :: t3 =>
          ((b0 mod 8) * 262144 + (b1 mod 64) * 4096
           + (b2 mod 64) * 64 + b3 mod 64)%N :: utf8_decode t3
        end
      end
    end
  end.

Definition py (s : string) : pystr :=
  utf8_decode (map Byte.to_N (list_byte_of_string s)).

(** "\n" *)
Definition NL : pystr := [10%N].

Fixpoint str_eqb (a b : pystr) : bool :=
  match a, b with
  | [], [] => true
  | x :: a', y :: b' => (x =? y)%N && str_eqb a' b'
  | _, _ => false
  end.

(** [a.startswith(p)] *)
Fixpoint startswith (p a : pystr) : bool :=
  match p, a with
  | [], _ => true
  | x :: p', y :: a' => (x =? y)%N && startswith p' a'
  | _ :: _, [] => false
  end.

(** [needle in hay] *)
Fixpoint str_in (needle hay : pystr) : bool :=
  startswith needle hay ||
  match hay with
  | [] => false
  | _ :: hay' => str_in needle hay'
  end.

(** [str.isspace] for one code point (Unicode White_Space plus the four
    information separators, as CPython has it). *)
Definition isspace (c : N) : bool :=
  ((9 <=? c) && (c <=? 13) || (28 <=? c) && (c <=? 32) || (c =? 133)
   || (c =? 160) || (c =? 5760) || (8192 <=? c) && (c <=? 8202)
   || (c =? 8232) || (c =? 8233) || (c =? 8239) || (c =? 8287)
   || (c =? 12288))%N.

Fixpoint lstrip (s : pystr) : pystr :=
  match s with
  | c :: s' => if isspace c then lstrip s' else s
  | [] => []
  end.

Fixpoint take_while (f : N -> bool) (s : pystr) : pystr :=
  match s with
  | c :: s' => if f c then c :: take_while f s' else []
  | [] => []
  end.

(** [s.strip()] *)
Definition strip (s : pystr) : pystr := rev (lstrip (rev (lstrip s))).

(** [str(n)] for a non-negative integer. *)
Fixpoint digits_of (fuel n : nat) (acc : pystr) : pystr :=
  match fuel with
  | O => acc
  | S fuel' =>
    let acc' := (48 + N.of_nat (n mod 10))%N :: acc in
    if (n <? 10)%nat then acc' else digits_of fuel' (n / 10) acc'
  end.

Definition str_of_nat (n : nat) : pystr := digits_of (S n) n [].

(** ** Slices and ranges *)

(** [s[i:j]] for [0 <= i <= j]. *)
Definition slice {A} (s : list A) (i j : nat) : list A :=
  take (j - i) (drop i s).

(** The values a [for i in range(start, stop, step)] loop visits: the loop
    counter starts at [start] and advances by [step] while it is below
    [stop].  For a positive step at most [stop] values are visited, which
    is the fuel [py_range] gives. *)
Fixpoint range_from (fuel i stop step : nat) : list nat :=
  match fuel with
  | O => []
  | S fuel' =>
    if (i <? stop)%nat then i :: range_from fuel' (i + step) stop step
    else []
  end.

Definition py_range (start stop step : nat) : list nat :=
  range_from stop start stop step.

(** The chunk size of the message length policy. *)
Definition CHUNK : nat := 4000.

(** [[body[i:i + 4000] for i in range(0, len(body), 4000)]]: the texts the
    two chunking loops of [handle_text] pass to [message.answer]. *)
Definition chunks {A} (body : list A) : list (list A) :=
  map (fun i => slice body i (i + CHUNK)) (py_range 0 (length body) CHUNK).

(** ** The world the module runs in *)

(** The values stored in [user_states]: the strings "summary", "search",
    "photo", "show_notes_list" and "calculator". *)
Inductive tag := Summary | Search | Photo | ShowNotesList | Calculator.

(** The exception classes the module meets; all derive from [Exception]. *)
Inductive exn :=
| ValueError | IndexError | FileNotFoundError | UnidentifiedImageError
| TesseractError | ClientError | TimeoutError | SqliteError | TelegramError
| OtherError.

Inductive result (A : Type) := Ok (a : A) | Raised (e : exn).
Arguments Ok {A} a.
Arguments Raised {A} e.

(** A row of [summaries]. *)
Record Note := {
  note_id : Z;
  note_user : Z;
  topic : pystr;
  content : pystr;
  created_at : Z }.

(** A reply keyboard: rows of button labels. *)
Abbreviation keyboard := (list (list pystr)).

(** One call of [message.answer] or [bot.send_message]; [delivered] tells
    whether Telegram accepted it. *)
Record Sent := {
  chat : Z;
  body : pystr;
  markup : option keyboard;
  delivered : bool }.

(** Calls of the four providers, in order. *)
Inductive Call :=
| CallSummary (topic : pystr)
| CallSearch (query : pystr)
| CallOcr (image_path : pystr)
| CallSolve (text : pystr).

(** An inbound [types.Message]: [msg_text] is empty for a message without
    text, [msg_photo] lists the file ids of the photo sizes. *)
Record message := {
  msg_from : Z;
  msg_chat : Z;
  msg_text : pystr;
  msg_photo : list pystr }.

(** Datetimes are microseconds on the local clock; a [last_active] cell
    holds [None] for NULL and otherwise the datetime whose [isoformat()]
    the module stored (the only values it ever writes), which
    [fromisoformat] gives back. *)
Record World := {
  user_states : gmap Z tag;
  users : list (Z * option Z);
  summaries : list Note;
  temp : gset pystr;
  outbox : list Sent;
  calls : list Call;
  log : list exn;
  tick : nat }.

(** What the module calls but does not own.  Every call out of the module
    takes one [tick], and the oracles are indexed by it, so that each call
    has an outcome of its own. *)
Record Env := {
  telegram_ok : nat -> bool;
  sqlite_ok : nat -> bool;
  clock : nat -> Z;
  (** [wiki.page(topic)]: [None] when the page does not exist, else the
      (title, text) of its sections. *)
  wikipedia : nat -> pystr -> result (option (list (pystr * pystr)));
  (** the JSON of DuckDuckGo: its 'AbstractText' and 'AbstractURL' keys. *)
  duckduckgo : nat -> pystr -> result (option pystr * option pystr);
  (** [pytesseract.image_to_string(Image.open(path), lang='rus+eng')] *)
  tesseract : nat -> pystr -> result pystr;
  (** Wolfram Alpha: the HTTP status and the body. *)
  wolfram : nat -> pystr -> result (Z * pystr);
  (** the built-in [int] on a [str]; [None] stands for [ValueError]. *)
  py_int : pystr -> option Z;
  (** whether [@mention] after a command names this bot. *)
  is_me : pystr -> bool }.

Definition with_user_states (f : gmap Z tag -> gmap Z tag) (w : World) :=
  {| user_states := f (user_states w); users := users w;
     summaries := summaries w; temp := temp w; outbox := outbox w;
     calls := calls w; log := log w; tick := tick w |}.

Definition with_users (f : list (Z * option Z) -> list (Z * option Z))
    (w : World) :=
  {| user_states := user_states w; users := f (users w);
     summaries := summaries w; temp := temp w; outbox := outbox w;
     calls := calls w; log := log w; tick := tick w |}.

Definition with_summaries (f : list Note -> list Note) (w : World) :=
  {| user_states := user_states w; users := users w;
     summaries := f (summaries w); temp := temp w; outbox := outbox w;
     calls := calls w; log := log w; tick := tick w |}.

Definition with_temp (f : gset pystr -> gset pystr) (w : World) :=
  {| user_states := user_states w; users := users w;
     summaries := summaries w; temp := f (temp w); outbox := outbox w;
     calls := calls w; log := log w; tick := tick w |}.

Definition with_outbox (f : list Sent -> list Sent) (w : World) :=
  {| user_states := user_states w; users := users w;
     summaries := summaries w; temp := temp w; outbox := f (outbox w);
     calls := calls w; log := log w; tick := tick w |}.

Definition with_calls (f : list Call -> list Call) (w : World) :=
  {| user_states := user_states w; users := users w;
     summaries := summaries w; temp := temp w; outbox := outbox w;
     calls := f (calls w); log := log w; tick := tick w |}.

Definition with_log (f : list exn -> list exn) (w : World) :=
  {| user_states := user_states w; users := users w;
     summaries := summaries w; temp := temp w; outbox := outbox w;
     calls := calls w; log := f (log w); tick := tick w |}.

Definition with_tick (f : nat -> nat) (w : World) :=
  {| user_states := user_states w; users := users w;
     summaries := summaries w; temp := temp w; outbox := outbox w;
     calls := calls w; log := log w; tick := f (tick w) |}.

(** ** The monad: state and exceptions *)

Definition M (A : Type) : Type := World -> World * result A.

Definition ret {A} (a : A) : M A := fun w => (w, Ok a).

Definition raise {A} (e : exn) : M A := fun w => (w, Raised e).

Definition bind {A B} (m : M A) (k : A -> M B) : M B :=
  fun w =>
    match m w with
    | (w', Ok a) => k a w'
    | (w', Raised e) => (w', Raised e)
    end.

Notation "'let*' x ':=' m 'in' k" := (bind m (fun x => k))
  (at level 10, x name, m at level 100, k at level 200).
Notation "m >> k" := (bind m (fun _ => k))
  (at level 65, right associativity).

(** [try: body / except <classes>: ...]: [handler e] is [None] when no
    [except] clause matches [e]. *)
Definition try_except {A} (body : M A) (handler : exn -> option (M A))
    : M A :=
  fun w =>
    match body w with
    | (w', Ok a) => (w', Ok a)
    | (w', Raised e) =>
      match handler e with
      | Some h => h w'
      | None => (w', Raised e)
      end
    end.

(** [try: body / finally: fin]: [fin] runs on every exit; an exception of
    [fin] replaces the outcome of [body]. *)
Definition try_finally {A} (body : M A) (fin : M unit) : M A :=
  fun w =>
    match body w with
    | (w', r) =>
      match fin w' with
      | (w'', Ok _) => (w'', r)
      | (w'', Raised e) => (w'', Raised e)
      end
    end.

Fixpoint for_each {A} (xs : list A) (body : A -> M unit) : M unit :=
  match xs with
  | [] => ret tt
  | x :: xs' => body x >> for_each xs' body
  end.

Definition modify (f : World -> World) : M unit := fun w => (f w, Ok tt).

Definition gets {A} (f : World -> A) : M A := fun w => (w, Ok (f w)).

(** The tick of the next call out of the module. *)
Definition step : M nat := fun w => (with_tick S w, Ok (tick w)).

Definition exec {A} (m : M A) (w : World) : World := fst (m w).
Definition outcome {A} (m : M A) (w : World) : result A := snd (m w).

(** ** Texts of the module *)

Definition LABEL_SUMMARY : pystr := py "📝 Сделать конспект".
Definition LABEL_SEARCH : pystr := py "🔍 Найти информацию".
Definition LABEL_PHOTO : pystr := py "🖼️ Решить по фото".
Definition LABEL_NOTES : pystr := py "📚 Мои конспекты".
Definition LABEL_CALCULATOR : pystr := py "🧮 Калькулятор формул".

Definition GREETING : pystr :=
  py "📚 Привет! Я твой бесплатный учебный помощник." ++ NL
  ++ py "Выбери действие:".
Definition PROMPT_SUMMARY : pystr := py "📖 Введите тему для конспекта:".
Definition PROMPT_SEARCH : pystr :=
  py "🔎 Что вас интересует? Введите запрос:".
Definition PROMPT_PHOTO : pystr := py "📸 Отправьте фото с задачей:".
Definition PROMPT_CALCULATOR : pystr :=
  py "🧮 Введите математическое выражение или задачу:".
Definition NO_NOTES : pystr :=
  py "📭 У вас пока нет сохраненных конспектов.".
Definition NOTES_HEADER : pystr := py "📚 Ваши конспекты:" ++ NL ++ NL.
Definition NOTES_FOOTER : pystr :=
  NL ++ py "Отправьте номер конспекта для просмотра:".
Definition NOTES_FAILED : pystr :=
  py "⚠️ Произошла ошибка при загрузке конспектов.".
Definition PHOTO_HINT : pystr :=
  py "ℹ️ Пожалуйста, сначала выберите действие '🖼️ Решить по фото' в меню.".
Definition PHOTO_PROGRESS : pystr := py "⏳ Обрабатываю фото...".
Definition PHOTO_FAILED : pystr :=
  py "⚠️ Произошла ошибка при обработке фото. Попробуйте еще раз.".
Definition PHOTO_TOPIC : pystr := py "Задача с фото".
Definition MENU_HINT : pystr :=
  py "ℹ️ Пожалуйста, выберите действие из меню.".
Definition SUMMARY_PROGRESS : pystr := py "⏳ Создаю конспект...".
Definition SEARCH_PROGRESS : pystr := py "⏳ Ищу информацию...".
Definition CALCULATOR_PROGRESS : pystr := py "⏳ Решаю задачу...".
Definition BAD_NUMBER : pystr := py "❌ Неверный номер конспекта.".
Definition NOT_A_NUMBER : pystr :=
  py "❌ Пожалуйста, введите номер конспекта.".
Definition UNEXPECTED : pystr :=
  py "⚠️ Произошла непредвиденная ошибка. Попробуйте позже.".
Definition REMINDER : pystr :=
  py "📚 Не забывай учиться! Я всегда готов помочь с конспектами и задачами.".
Definition SUMMARY_NOT_FOUND : pystr :=
  py "😢 Не удалось найти информацию по этой теме. Попробуйте уточнить запрос.".
Definition SUMMARY_FAILED : pystr :=
  py "⚠️ Ошибка получения данных. Попробуйте другую тему.".
Definition SEARCH_NOT_FOUND : pystr :=
  py "🔍 Информация не найдена. Попробуйте сформулировать запрос иначе.".
Definition SEARCH_FAILED : pystr := py "⚠️ Ошибка поиска. Попробуйте позже.".
Definition OCR_EMPTY : pystr := py "Не удалось распознать текст на фото".
Definition OCR_FAILED : pystr := py "Ошибка обработки изображения. ".
Definition OCR_SETUP : pystr :=
  py "Убедитесь, что Tesseract установлен и путь указан в TESSERACT_CMD".
Definition SOLVE_UNABLE : pystr :=
  py "🤔 Не могу решить эту задачу. Попробуйте сформулировать проще.".
Definition SOLVE_FAILED : pystr :=
  py "⚠️ Ошибка решения задачи. Попробуйте другую.".
(** The word the photo handler looks for in the OCR result. *)
Definition ERROR_WORD : pystr := py "Ошибка".

(** [f"temp/{file.file_id}.jpg"] *)
Definition temp_path (file_id : pystr) : pystr :=
  py "temp/" ++ file_id ++ py ".jpg".

(** [timedelta(days=3)] in microseconds. *)
Definition THREE_DAYS : Z := 3 * 24 * 3600 * 1000000.

(** [sep.join(xs)] *)
Fixpoint join (sep : pystr) (xs : list pystr) : pystr :=
  match xs with
  | [] => []
  | [x] => x
  | x :: xs' => x ++ sep ++ join sep xs'
  end.

(** [study_keyboard]: five buttons, [adjust(2)] puts two in a row. *)
Definition study_keyboard : keyboard :=
  [ [LABEL_SUMMARY; LABEL_SEARCH];
    [LABEL_PHOTO; LABEL_NOTES];
    [LABEL_CALCULATOR] ].

(** ** The tables *)

(** [SELECT ... FROM summaries WHERE user_id = ?]: rows in rowid order. *)
Definition notes_of (user_id : Z) (tbl : list Note) : list Note :=
  filter (fun n => note_user n = user_id) tbl.

(** AUTOINCREMENT: one more than the largest id in the table. *)
Definition next_id (tbl : list Note) : Z :=
  1 + foldr (fun n acc => Z.max (note_id n) acc) 0 tbl.

(** [INSERT INTO summaries (user_id, topic, content) VALUES (?, ?, ?)];
    [created_at] takes its default, the time of the insert. *)
Definition insert_summary (user_id : Z) (t c : pystr) (now : Z)
    (tbl : list Note) : list Note :=
  tbl ++ [ {| note_id := next_id tbl; note_user := user_id; topic := t;
              content := c; created_at := now |} ].

Definition has_user (user_id : Z) (tbl : list (Z * option Z)) : bool :=
  existsb (fun r => r.1 =? user_id) tbl.

(** [INSERT OR IGNORE INTO users (user_id, last_active) VALUES (?, ?)]:
    [user_id] is the primary key, a row with that key makes the insert a
    no-op. *)
Definition insert_or_ignore_user (user_id : Z) (now : Z)
    (tbl : list (Z * option Z)) : list (Z * option Z) :=
  if has_user user_id tbl then tbl else tbl ++ [(user_id, Some now)].

(** [UPDATE users SET last_active = ? WHERE user_id = ?] *)
Definition update_last_active (user_id : Z) (now : Z)
    (tbl : list (Z * option Z)) : list (Z * option Z) :=
  map (fun r => if r.1 =? user_id then (r.1, Some now) else r) tbl.

(** The [last_active] cell of a user's row, if the row exists. *)
Definition last_active_of (user_id : Z) (tbl : list (Z * option Z))
    : option (option Z) :=
  snd <$> find (fun r => r.1 =? user_id) tbl.

(** ** Calls out of the module *)

Section Bot.
Variable env : Env.

(** [bot.send_message(chat, text, reply_markup=kb)]: the attempt goes to
    the outbox, and a refusal raises. *)
Definition send_message (to : Z) (text : pystr) (kb : option keyboard)
    : M unit :=
  let* n := step in
  let ok := telegram_ok env n in
  modify (with_outbox (fun o =>
    o ++ [ {| chat := to; body := text; markup := kb; delivered := ok |} ]))
  >> if ok then ret tt else raise TelegramError.

(** [message.answer(text)] *)
Definition answer (m : message) (text : pystr) : M unit :=
  send_message (msg_chat m) text None.

(** One [with sqlite3.connect(...)] block (or one statement and its
    commit): it either fails as a whole or applies [f]. *)
Definition sqlite {A} (f : nat -> World -> World * A) : M A :=
  let* n := step in
  if sqlite_ok env n
  then (fun w => let (w', a) := f n w in (w', Ok a))
  else raise SqliteError.

(** [datetime.now()] *)
Definition datetime_now : M Z :=
  let* n := step in ret (clock env n).

Definition logger (e : exn) : M unit :=
  modify (with_log (fun l => l ++ [e])).

(** [user_states.get(user_id)] *)
Definition get_state (user_id : Z) : M (option tag) :=
  gets (fun w => user_states w !! user_id).

(** [user_states[user_id] = t] *)
Definition set_state (user_id : Z) (t : tag) : M unit :=
  modify (with_user_states (insert user_id t)).

(** [user_states.pop(user_id, None)] *)
Definition pop_state (user_id : Z) : M unit :=
  modify (with_user_states (delete user_id)).

(** [bot.get_file] then [bot.download_file(file.file_path, path)];
    [os.makedirs("temp", exist_ok=True)] in between finds the directory
    that [main] created and does nothing. *)
Definition get_file (file_id : pystr) : M pystr :=
  let* n := step in
  if telegram_ok env n then ret file_id else raise TelegramError.

Definition download_file (path : pystr) : M unit :=
  let* n := step in
  if telegram_ok env n then modify (with_temp (fun fs => {[ path ]} ∪ fs))
  else raise TelegramError.

(** [os.remove(path)] *)
Definition os_remove (path : pystr) : M unit :=
  let* there := gets (fun w => bool_decide (path ∈ temp w)) in
  if there then modify (with_temp (fun fs => fs ∖ {[ path ]}))
  else raise FileNotFoundError.

(** ** The providers *)

Definition called (c : Call) : M unit :=
  modify (with_calls (fun l => l ++ [c])).

(** [generate_summary]: at most five sections, 500 characters of each. *)
Definition generate_summary (t : pystr) : M pystr :=
  called (CallSummary t) >>
  let* n := step in
  match wikipedia env n t with
  | Ok None => ret SUMMARY_NOT_FOUND
  | Ok (Some page_sections) =>
    let sections :=
      map (fun s => py "## " ++ s.1 ++ NL ++ slice s.2 0 500 ++ py "...")
          page_sections in
    ret (py "📘 Конспект по теме '" ++ t ++ py "':" ++ NL ++ NL
         ++ join (NL ++ NL) (slice sections 0 5))
  | Raised e => logger e >> ret SUMMARY_FAILED
  end.

(** [search_info]: only [aiohttp.ClientError] and [asyncio.TimeoutError]
    are caught. *)
Definition search_info (query : pystr) : M pystr :=
  called (CallSearch query) >>
  let* n := step in
  match duckduckgo env n query with
  | Ok (abstract, url) =>
    let abstract_text := default [] abstract in
    match abstract_text with
    | [] => ret SEARCH_NOT_FOUND
    | _ =>
      let source := default (py "DuckDuckGo") url in
      ret (py "🔍 Результаты по запросу '" ++ query ++ py "':" ++ NL ++ NL
           ++ abstract_text ++ NL ++ NL ++ py "Источник: " ++ source)
    end
  | Raised ClientError => logger ClientError >> ret SEARCH_FAILED
  | Raised TimeoutError => logger TimeoutError >> ret SEARCH_FAILED
  | Raised e => raise e
  end.

(** [ocr_from_photo]: [FileNotFoundError], [UnidentifiedImageError] and
    [pytesseract.TesseractError] are caught.  The choice of the Tesseract
    binary ([TESSERACT_CMD]) is part of what [tesseract] answers. *)
Definition ocr_from_photo (image_path : pystr) : M pystr :=
  called (CallOcr image_path) >>
  let* n := step in
  match tesseract env n image_path with
  | Ok text =>
    match strip text with
    | [] => ret OCR_EMPTY
    | stripped => ret stripped
    end
  | Raised FileNotFoundError =>
    logger FileNotFoundError >> ret (OCR_FAILED ++ OCR_SETUP)
  | Raised UnidentifiedImageError =>
    logger UnidentifiedImageError >> ret OCR_FAILED
  | Raised TesseractError => logger TesseractError >> ret OCR_FAILED
  | Raised e => raise e
  end.

(** [solve_math_problem] *)
Definition solve_math_problem (text : pystr) : M pystr :=
  called (CallSolve text) >>
  let* n := step in
  match wolfram env n text with
  | Ok (status, solution) =>
    if status =? 501 then ret SOLVE_UNABLE
    else ret (py "🧮 Решение:" ++ NL ++ solution)
  | Raised ClientError => logger ClientError >> ret SOLVE_FAILED
  | Raised TimeoutError => logger TimeoutError >> ret SOLVE_FAILED
  | Raised e => raise e
  end.

(** ** The handlers *)

Definition start_cmd (m : message) : M unit :=
  let user_id := msg_from m in
  try_except
    (let* now := datetime_now in
     sqlite (fun _ w => (with_users (insert_or_ignore_user user_id now) w, tt)))
    (fun e => Some (logger e))
  >> send_message (msg_chat m) GREETING (Some study_keyboard).

Definition handle_summary (m : message) : M unit :=
  set_state (msg_from m) Summary >> answer m PROMPT_SUMMARY.

Definition handle_search (m : message) : M unit :=
  set_state (msg_from m) Search >> answer m PROMPT_SEARCH.

Definition handle_photo (m : message) : M unit :=
  set_state (msg_from m) Photo >> answer m PROMPT_PHOTO.

(** The numbered list of topics: [enumerate(notes, 1)]. *)
Fixpoint notes_listing (i : nat) (notes : list Note) : pystr :=
  match notes with
  | [] => []
  | n :: notes' =>
    str_of_nat i ++ py ". " ++ topic n ++ NL ++ notes_listing (S i) notes'
  end.

Definition handle_notes (m : message) : M unit :=
  let user_id := msg_from m in
  try_except
    (let* notes := sqlite (fun _ w => (w, notes_of user_id (summaries w))) in
     match notes with
     | [] => answer m NO_NOTES
     | _ =>
       let response := NOTES_HEADER ++ notes_listing 1 notes in
       set_state user_id ShowNotesList >>
       answer m (response ++ NOTES_FOOTER)
     end)
    (fun e => Some (logger e >> answer m NOTES_FAILED)).

Definition handle_calculator (m : message) : M unit :=
  set_state (msg_from m) Calculator >> answer m PROMPT_CALCULATOR.

Definition handle_photo_message (m : message) : M unit :=
  let user_id := msg_from m in
  let* state := get_state user_id in
  match state with
  | Some Photo =>
    try_finally
      (try_except
         (answer m PHOTO_PROGRESS >>
          let* file_id :=
            match last (msg_photo m) with
            | Some photo => get_file photo
            | None => raise IndexError
            end in
          let file_path := temp_path file_id in
          download_file file_path >>
          let* text := ocr_from_photo file_path in
          (if str_in ERROR_WORD text then answer m text
           else
             answer m (py "📖 Распознанный текст:" ++ NL ++ text ++ NL ++ NL
                       ++ py "⏳ Ищу решение...") >>
             sqlite (fun n w =>
               (with_summaries
                  (insert_summary user_id PHOTO_TOPIC text (clock env n)) w,
                tt)) >>
             let* solution := solve_math_problem text in
             answer m solution) >>
          os_remove file_path)
         (fun e => Some (logger e >> answer m PHOTO_FAILED)))
      (pop_state user_id)
  | _ => answer m PHOTO_HINT
  end.

(** The two chunking loops of [handle_text] share this shape: a body over
    4000 characters goes out in slices, a shorter one as [whole]. *)
Definition answer_long (m : message) (body whole : pystr) : M unit :=
  if (CHUNK <? length body)%nat
  then for_each (chunks body) (answer m)
  else answer m whole.

Definition handle_text (m : message) : M unit :=
  let user_id := msg_from m in
  let* state := get_state user_id in
  match state with
  | None => answer m MENU_HINT
  | Some state =>
    try_except
      (match state with
       | Summary =>
         answer m SUMMARY_PROGRESS >>
         let* summary := generate_summary (msg_text m) in
         sqlite (fun n w =>
           (with_summaries
              (insert_summary user_id (msg_text m) summary (clock env n)) w,
            tt)) >>
         answer_long m summary summary >>
         pop_state user_id
       | Search =>
         answer m SEARCH_PROGRESS >>
         let* result := search_info (msg_text m) in
         answer m result >>
         pop_state user_id
       | ShowNotesList =>
         try_finally
           (try_except
              (let* note_index :=
                 match py_int env (msg_text m) with
                 | Some k => ret (k - 1)
                 | None => raise ValueError
                 end in
               let* notes :=
                 sqlite (fun _ w => (w, notes_of user_id (summaries w))) in
               if (0 <=? note_index) && (note_index <? Z.of_nat (length notes))
               then
                 match notes !! Z.to_nat note_index with
                 | Some note =>
                   answer_long m (content note)
                     (py "📘 Конспект: " ++ topic note ++ NL ++ NL
                      ++ content note)
                 | None => raise IndexError
                 end
               else answer m BAD_NUMBER)
              (fun e =>
                 match e with
                 | ValueError => Some (answer m NOT_A_NUMBER)
                 | _ => None
                 end))
           (pop_state user_id)
       | Calculator =>
         answer m CALCULATOR_PROGRESS >>
         let* solution := solve_math_problem (msg_text m) in
         answer m solution >>
         pop_state user_id
       | Photo => ret tt
       end)
      (fun e => Some (logger e >> answer m UNEXPECTED >> pop_state user_id))
  end.

(** ** The scheduler *)

(** The body of the loop of [inactivity_check] for one fetched row. *)
Definition check_user (row : Z * option Z) : M unit :=
  let user_id := row.1 in
  match row.2 with
  | None => ret tt
  | Some last_active =>
    let* now := datetime_now in
    if THREE_DAYS <? now - last_active
    then
      try_except
        (send_message user_id REMINDER None >>
         let* now' := datetime_now in
         sqlite (fun _ w => (with_users (update_last_active user_id now') w, tt)))
        (fun _ => Some (ret tt))
    else ret tt
  end.

Definition inactivity_check : M unit :=
  try_except
    (let* rows := sqlite (fun _ w => (w, users w)) in
     for_each rows check_user)
    (fun e => Some (logger e)).

(** ** The dispatcher *)

(** The filter [Command("start")]: the first word of the text is [/start],
    or [/start@name] with the bot's name. *)
Definition command_start (text : pystr) : bool :=
  let word := take_while (fun c => negb (isspace c)) (lstrip text) in
  let cmd := take_while (fun c => negb (c =? 64)%N) word in
  let mention := drop (S (length cmd)) word in
  str_eqb cmd (py "/start")
  && (bool_decide (length word <= length cmd)%nat || is_me env mention).

(** The handlers in the order the module registers them; the first whose
    filter accepts the message handles it, and a message none accepts is
    dropped. *)
Definition dispatch (m : message) : M unit :=
  let text := msg_text m in
  if command_start text then start_cmd m
  else if str_eqb text LABEL_SUMMARY then handle_summary m
  else if str_eqb text LABEL_SEARCH then handle_search m
  else if str_eqb text LABEL_PHOTO then handle_photo m
  else if str_eqb text LABEL_NOTES then handle_notes m
  else if str_eqb text LABEL_CALCULATOR then handle_calculator m
  else if bool_decide (msg_photo m <> []) then handle_photo_message m
  else if bool_decide (text <> []) then handle_text m
  else ret tt.

End Bot.

(** ** Vocabulary of the properties *)

(** [ceil(a / b)] on naturals. *)
Definition ceil_div (a b : nat) : nat := ((a + b - 1) / b)%nat.

(** The tag a menu label stands for. *)
Definition menu_tag (text : pystr) : option tag :=
  if str_eqb text LABEL_SUMMARY then Some Summary
  else if str_eqb text LABEL_SEARCH then Some Search
  else if str_eqb text LABEL_PHOTO then Some Photo
  else if str_eqb text LABEL_NOTES then Some ShowNotesList
  else if str_eqb text LABEL_CALCULATOR then Some Calculator
  else None.

(** A text message that is neither a command nor a menu label. *)
Definition free_text (env : Env) (m : message) : bool :=
  bool_decide (msg_text m <> []) && bool_decide (msg_photo m = [])
  && negb (command_start env (msg_text m))
  && bool_decide (menu_tag (msg_text m) = None).

(** A delivered plain reply to the chat of [m]. *)
Definition reply_to (m : message) (text : pystr) : Sent :=
  {| chat := msg_chat m; body := text; markup := None; delivered := true |}.

(** The correction messages for a bad note number carry this mark; the
    apology for an unexpected failure does not. *)
Definition input_error (reply : pystr) : bool := startswith (py "❌") reply.

(** What the primary key and the module's own writes maintain on [users]:
    one row per user, and no NULL [last_active]. *)
Definition users_wf (tbl : list (Z * option Z)) : Prop :=
  NoDup tbl.*1 /\ Forall (fun r => is_Some r.2) tbl.

(** The number of rows of [users] with a given key. *)
Definition rows_of (user_id : Z) (tbl : list (Z * option Z)) : nat :=
  length (filter (fun r => r.1 = user_id) tbl).

(** The attempts to write to one chat. *)
Definition sent_to (to : Z) (box : list Sent) : list Sent :=
  filter (fun s => chat s = to) box.

(** An attempt to remind a user. *)
Definition reminder (user_id : Z) (ok : bool) : Sent :=
  {| chat := user_id; body := REMINDER; markup := None; delivered := ok |}.

(** What the scheduler does about one fetched row, between the ticks [lo]
    and [hi]: [new] is what it sent, [cell] and [cell'] are the user's
    [last_active] cell before and after.  A row with NULL is skipped.
    Otherwise the clock is read at some tick [n]; when that reading is
    more than three days past [last_active] one reminder is attempted at
    the next tick, and a delivered one sets the cell to the clock's
    reading after the delivery. *)
Definition row_checked (env : Env) (lo hi : nat) (new : list Sent)
    (cell cell' : option (option Z)) (row : Z * option Z) : Prop :=
  match row.2 with
  | None => sent_to row.1 new = [] /\ cell' = cell
  | Some t =>
    exists n, (lo <= n < hi)%nat /\
      if THREE_DAYS <? clock env n - t
      then sent_to row.1 new = [reminder row.1 (telegram_ok env (S n))]
           /\ cell' = (if telegram_ok env (S n)
                       then (fun _ => Some (clock env (S (S n)))) <$> cell
                       else cell)
      else sent_to row.1 new = [] /\ cell' = cell
  end.

(** What a provider call leaves of the world: all but the log is as
    before, with the call recorded and one tick gone. *)
Definition after_call (c : Call) (w w1 : World) : Prop :=
  user_states w1 = user_states w /\ users w1 = users w
  /\ summaries w1 = summaries w /\ temp w1 = temp w
  /\ outbox w1 = outbox w /\ calls w1 = calls w ++ [c]
  /\ tick w1 = S (tick w).

(** The exceptions [ocr_from_photo] turns into a message. *)
Definition ocr_caught (e : exn) : bool :=
  match e with
  | FileNotFoundError | UnidentifiedImageError | TesseractError => true
  | _ => false
  end.

(** ** Frames

    [keeps R m]: whatever the oracles answer, [m] takes a world to one
    that [R] relates it to. *)
Definition keeps (R : World -> World -> Prop) {A} (m : M A) : Prop :=
  forall w, R w (exec m w).

(** A relation that the bookkeeping of a run respects: it is a preorder,
    and a tick and a log line stay within it. *)
Class Frame (R : World -> World -> Prop) : Prop := {
  frame_refl : forall w, R w w;
  frame_trans : forall w1 w2 w3, R w1 w2 -> R w2 w3 -> R w1 w3;
  frame_tick : forall w, R w (with_tick S w);
  frame_log : forall w e, R w (with_log (fun l => l ++ [e]) w) }.

(** A relation that any recorded provider call stays within. *)
Class Calling (R : World -> World -> Prop) : Prop :=
  calling : forall w c, R w (with_calls (fun l => l ++ [c]) w).

(** A relation that any outbound message stays within. *)
Class Outgoing (R : World -> World -> Prop) : Prop :=
  outgoing : forall w s, R w (with_outbox (fun o => o ++ [s]) w).

(** What handling a message of [user_id] may do: other users' pending
    actions stay; notes and user rows are only appended, and only for
    [user_id]; outbox, recorded calls and log only grow; time moves on. *)
Definition grows (user_id : Z) (w w' : World) : Prop :=
  (forall other, other <> user_id ->
     user_states w' !! other = user_states w !! other)
  /\ (exists added, summaries w' = summaries w ++ added
        /\ Forall (fun n => note_user n = user_id) added)
  /\ (exists added, users w' = users w ++ added
        /\ Forall (fun r => r.1 = user_id) added)
  /\ outbox w `prefix_of` outbox w'
  /\ calls w `prefix_of` calls w'
  /\ log w `prefix_of` log w'
  /\ (tick w <= tick w')%nat.

(** What a tick of the scheduler may do: pending actions, notes, files
    and recorded calls stay; the user rows keep their keys, in order, and
    no cell becomes NULL; whatever is sent is the reminder, to one of
    [ids]. *)
Definition reminds (ids : list Z) (w w' : World) : Prop :=
  user_states w' = user_states w
  /\ summaries w' = summaries w
  /\ temp w' = temp w
  /\ calls w' = calls w
  /\ (users w').*1 = (users w).*1
  /\ (Forall (fun r => is_Some r.2) (users w) ->
      Forall (fun r => is_Some r.2) (users w'))
  /\ (exists new, outbox w' = outbox w ++ new
        /\ Forall (fun s => body s = REMINDER /\ markup s = None
                            /\ chat s ∈ ids) new).

(** The store and the files are as before. *)
Definition store_kept (w w' : World) : Prop :=
  summaries w' = summaries w /\ users w' = users w /\ temp w' = temp w.

(** [P] is kept: a world with [P] is taken to a world with [P]. *)
Definition invariant (P : World -> Prop) (w w' : World) : Prop := P w -> P w'.

(** AUTOINCREMENT keeps the ids of [summaries] positive and strictly
    increasing along the table. *)
Definition notes_wf (tbl : list Note) : Prop :=
  Forall (fun n => 0 < note_id n) tbl
  /\ forall i j a b, tbl !! i = Some a -> tbl !! j = Some b ->
       (i < j)%nat -> note_id a < note_id b.

(** Both tables are as their schema has them. *)
Definition store_wf (w : World) : Prop :=
  users_wf (users w) /\ notes_wf (summaries w).

(** ** The process

    [main] starts two things: the polling loop, which hands every update
    to the first handler that accepts it, and [scheduler], which runs
    [inactivity_check] once an hour for ever.  A run is the sequence of
    these events, each handled to its end before the next (interleavings
    at an [await] are not followed); an exception that leaves a handler is
    logged by the dispatcher and the loop goes on. *)
Inductive event := Incoming (m : message) | Hour.

Definition handle_event (env : Env) (w : World) (ev : event) : World :=
  match ev with
  | Incoming m => exec (dispatch env m) w
  | Hour => exec (inactivity_check env) w
  end.

Definition run (env : Env) (evs : list event) (w : World) : World :=
  foldl (handle_event env) w evs.

(** The senders of the messages of a run. *)
Definition senders (evs : list event) : list Z :=
  omap (fun ev => match ev with Incoming m => Some (msg_from m)
                           | Hour => None end) evs.

(** The three routes of the dispatcher on which a table or the [temp/]
    directory can be written: a [/start] command, a photo while [photo]
    is pending, and a text that is no menu label while [summary] is
    pending. *)
Definition may_write (env : Env) (m : message) (w : World) : bool :=
  command_start env (msg_text m)
  || bool_decide (menu_tag (msg_text m) = None)
     && match user_states w !! msg_from m with
        | Some Photo => bool_decide (msg_photo m <> [])
        | Some Summary => bool_decide (msg_photo m = [])
        | _ => false
        end.

(** ** Concrete environments and inputs *)

(** A decimal reader for plain ASCII digits, standing in for [int] in the
    concrete runs below. *)
Fixpoint decimal (acc : Z) (s : pystr) : option Z :=
  match s with
  | [] => Some acc
  | c :: s' =>
    if ((48 <=? c) && (c <=? 57))%N
    then decimal (10 * acc + Z.of_N (c - 48)) s'
    else None
  end.

Definition parse_decimal (s : pystr) : option Z :=
  match s with [] => None | _ => decimal 0 s end.

(** A day in microseconds, and the time the concrete runs start at. *)
Definition DAY : Z := 24 * 3600 * 1000000.
Definition T0 : Z := 1700000000 * 1000000.

(** Every call succeeds; the page, the search and the OCR give fixed
    answers; the clock advances one second per tick. *)
Definition reliable_env : Env :=
  {| telegram_ok := fun _ => true;
     sqlite_ok := fun _ => true;
     clock := fun n => T0 + Z.of_nat n * 1000000;
     wikipedia := fun _ _ => Ok (Some [(py "История", py "Текст раздела")]);
     duckduckgo := fun _ _ => Ok (Some (py "Ответ"), None);
     tesseract := fun _ _ => Ok (py " 2+2 ");
     wolfram := fun _ _ => Ok (200, py "4");
     py_int := parse_decimal;
     is_me := fun _ => true |}.

(** Telegram refuses every request (the network is down, or the user has
    blocked the bot). *)
Definition offline_env : Env :=
  {| telegram_ok := fun _ => false;
     sqlite_ok := sqlite_ok reliable_env;
     clock := clock reliable_env;
     wikipedia := wikipedia reliable_env;
     duckduckgo := duckduckgo reliable_env;
     tesseract := tesseract reliable_env;
     wolfram := wolfram reliable_env;
     py_int := parse_decimal;
     is_me := is_me reliable_env |}.

(** SQLite fails on every statement (the database file is locked or not
    writable). *)
Definition locked_db_env : Env :=
  {| telegram_ok := fun _ => true;
     sqlite_ok := fun _ => false;
     clock := clock reliable_env;
     wikipedia := wikipedia reliable_env;
     duckduckgo := duckduckgo reliable_env;
     tesseract := tesseract reliable_env;
     wolfram := wolfram reliable_env;
     py_int := parse_decimal;
     is_me := is_me reliable_env |}.

(** Telegram refuses the requests at the ticks [deaf] names. *)
Definition flaky_env (deaf : nat -> bool) : Env :=
  {| telegram_ok := fun n => negb (deaf n);
     sqlite_ok := sqlite_ok reliable_env;
     clock := clock reliable_env;
     wikipedia := wikipedia reliable_env;
     duckduckgo := duckduckgo reliable_env;
     tesseract := tesseract reliable_env;
     wolfram := wolfram reliable_env;
     py_int := parse_decimal;
     is_me := is_me reliable_env |}.

(** A fresh process on a fresh database: [user_states = {}], and the two
    empty tables [init_db] creates. *)
Definition fresh_world : World :=
  {| user_states := ∅; users := []; summaries := []; temp := ∅;
     outbox := []; calls := []; log := []; tick := 0 |}.

(** A text, and a photo, from user 7 in the private chat 7. *)
Definition text_from_7 (text : pystr) : message :=
  {| msg_from := 7; msg_chat := 7; msg_text := text; msg_photo := [] |}.

Definition photo_from_7 : message :=
  {| msg_from := 7; msg_chat := 7; msg_text := [];
     msg_photo := [py "small"; py "large"] |}.

(** User 7 with a pending action. *)
Definition pending (t : tag) : World :=
  with_user_states (insert 7 t) fresh_world.

(** User 7 with [k] stored notes, note [i] holding [i] letters. *)
Definition with_notes (k : nat) (w : World) : World :=
  with_summaries (fun _ =>
    map (fun i => {| note_id := Z.of_nat i; note_user := 7;
                     topic := py "Тема " ++ str_of_nat i;
                     content := repeat 1103%N i; created_at := 0 |})
        (seq 1 k)) w.

(** A [users] table: user 7 last active at [t]. *)
Definition with_user_7 (t : Z) (w : World) : World :=
  with_users (fun _ => [(7, Some t)]) w.

(** Tesseract reads the words of an error page off every photo. *)
Definition error_page_env : Env :=
  {| telegram_ok := telegram_ok reliable_env;
     sqlite_ok := sqlite_ok reliable_env;
     clock := clock reliable_env;
     wikipedia := wikipedia reliable_env;
     duckduckgo := duckduckgo reliable_env;
     tesseract := fun _ _ => Ok (py "Ошибка 404");
     wolfram := wolfram reliable_env;
     py_int := parse_decimal;
     is_me := is_me reliable_env |}.

(** User 7 with one stored note: a topic of 300 letters and a content of
    3900. *)
Definition with_titled_note (w : World) : World :=
  with_summaries (fun _ =>
    [ {| note_id := 1; note_user := 7; topic := repeat 1103%N 300;
         content := repeat 1103%N 3900; created_at := 0 |} ]) w.

(** * Properties *)

(** ** Chunking *)

Section Chunking.
Local Open Scope nat_scope.
Context {A : Type}.
Implicit Types (body : list A) (fuel i stop step : nat).

Lemma ceil_div_least a b :
  0 < b -> a <= b * ceil_div a b /\ (forall n, a <= b * n -> ceil_div a b <= n).
Proof.
  intros Hb. unfold ceil_div. split.
  - pose proof (Nat.div_mod_eq (a + b - 1) b) as E.
    pose proof (Nat.mod_upper_bound (a + b - 1) b ltac:(lia)) as U.
    revert E U. generalize ((a + b - 1) / b) ((a + b - 1) mod b).
    intros q r E U. nia.
  - intros n Hn. enough ((a + b - 1) / b < S n) by lia.
    apply Nat.Div0.div_lt_upper_bound. nia.
Qed.

Lemma range_from_length fuel i stop step :
  0 < step -> stop <= i + fuel ->
  length (range_from fuel i stop step) = ceil_div (stop - i) step.
Proof.
  intros Hs. unfold ceil_div. revert i.
  induction fuel as [|fuel IH]; intros i Hf; simpl.
  - replace (stop - i) with 0 by lia. symmetry.
    apply Nat.div_small. lia.
  - destruct (Nat.ltb_spec i stop) as [Hlt|Hge]; simpl.
    + rewrite IH by lia.
      destruct (Nat.le_gt_cases step (stop - i)) as [Hle|Hgt].
      * replace (stop - i + step - 1) with
          ((stop - (i + step) + step - 1) + 1 * step) by lia.
        rewrite Nat.div_add by lia. lia.
      * replace (stop - (i + step) + step - 1) with (step - 1) by lia.
        rewrite (Nat.div_small (step - 1)) by lia.
        apply (Nat.div_unique _ _ 1 (stop - i - 1)); lia.
    + replace (stop - i) with 0 by lia. symmetry.
      apply Nat.div_small. lia.
Qed.

Lemma range_from_concat body fuel i step :
  0 < step -> length body <= i + fuel ->
  concat (map (fun j => slice body j (j + step))
              (range_from fuel i (length body) step)) = drop i body.
Proof.
  intros Hs. revert i.
  induction fuel as [|fuel IH]; intros i Hf; simpl.
  - symmetry. apply drop_ge. lia.
  - destruct (Nat.ltb_spec i (length body)) as [Hlt|Hge]; simpl.
    + rewrite IH by lia. unfold slice.
      replace (i + step - i) with step by lia.
      rewrite <- (drop_drop body step i). apply take_drop.
    + symmetry. apply drop_ge. lia.
Qed.

Lemma range_from_bounded body fuel i step :
  Forall (fun c : list A => length c <= step)
         (map (fun j => slice body j (j + step))
              (range_from fuel i (length body) step)).
Proof.
  revert i. induction fuel as [|fuel IH]; intros i; simpl.
  - constructor.
  - destruct (i <? length body); simpl; constructor.
    + unfold slice. rewrite length_take. lia.
    + apply IH.
Qed.

Lemma chunk_size_pos : 0 < CHUNK.
Proof. unfold CHUNK. lia. Qed.

Lemma chunks_length body : length (chunks body) = ceil_div (length body) CHUNK.
Proof.
  unfold chunks, py_range. rewrite length_map.
  rewrite range_from_length by (apply chunk_size_pos || lia).
  by rewrite Nat.sub_0_r.
Qed.

Lemma chunks_concat body : concat (chunks body) = body.
Proof.
  unfold chunks, py_range.
  rewrite range_from_concat by (apply chunk_size_pos || lia). done.
Qed.

Lemma chunks_bounded body :
  Forall (fun c : list A => length c <= CHUNK) (chunks body).
Proof. apply range_from_bounded. Qed.

End Chunking.

(** ** Running the monad *)

Opaque py.
Arguments CHUNK : simpl never.
Arguments notes_of : simpl never.
Arguments insert_summary : simpl never.
Arguments insert_or_ignore_user : simpl never.
Arguments update_last_active : simpl never.
Arguments last_active_of : simpl never.
Arguments chunks : simpl never.
Arguments str_in : simpl never.
Arguments temp_path : simpl never.
Arguments answer_long : simpl never.
Arguments generate_summary : simpl never.
Arguments search_info : simpl never.
Arguments ocr_from_photo : simpl never.
Arguments solve_math_problem : simpl never.

Ltac unfold_monad :=
  unfold try_finally, try_except, answer, send_message, sqlite,
    datetime_now, set_state, pop_state, get_state, logger, called,
    get_file, download_file, os_remove, bind, step, modify, gets, ret,
    raise in *.

Ltac unfold_world :=
  unfold with_user_states, with_users, with_summaries, with_temp,
    with_outbox, with_calls, with_log, with_tick in *.

(** Case analysis on every oracle and test the run meets. *)
Ltac run_cases :=
  repeat (case_match; cbn in *; simplify_eq; try done).

Lemma str_eqb_eq a b : str_eqb a b = true <-> a = b.
Proof.
  revert b. induction a as [|x a IH]; intros [|y b]; simpl;
    try (split; congruence).
  rewrite andb_true_iff, N.eqb_eq, IH. split; [intros []|intros [=]]; by subst.
Qed.

Lemma str_eqb_refl a : str_eqb a a = true.
Proof. by apply str_eqb_eq. Qed.

Section Runs.
Variable env : Env.

Lemma exec_bind {A B} (m : M A) (k : A -> M B) w :
  exec (bind m k) w =
  match outcome m w with
  | Ok a => exec (k a) (exec m w)
  | Raised _ => exec m w
  end.
Proof. unfold exec, outcome, bind. by destruct (m w) as [w1 [a|e]]. Qed.

Lemma outcome_bind {A B} (m : M A) (k : A -> M B) w :
  outcome (bind m k) w =
  match outcome m w with
  | Ok a => outcome (k a) (exec m w)
  | Raised e => Raised e
  end.
Proof. unfold exec, outcome, bind. by destruct (m w) as [w1 [a|e]]. Qed.

Lemma exec_try_except {A} (m : M A) h w :
  exec (try_except m h) w =
  match outcome m w with
  | Ok _ => exec m w
  | Raised e =>
    match h e with Some k => exec k (exec m w) | None => exec m w end
  end.
Proof.
  unfold exec, outcome, try_except.
  destruct (m w) as [w1 [a|e]]; cbn; [reflexivity|].
  destruct (h e); reflexivity.
Qed.

(** A [finally: user_states.pop(user_id, None)] runs whatever the body
    does, and does not change how the statement ends. *)
Lemma exec_finally_pop {A} (m : M A) user_id w :
  exec (try_finally m (pop_state user_id)) w =
  with_user_states (delete user_id) (exec m w).
Proof.
  unfold exec, try_finally, pop_state, modify. destruct (m w). reflexivity.
Qed.

Lemma outcome_finally_pop {A} (m : M A) user_id w :
  outcome (try_finally m (pop_state user_id)) w = outcome m w.
Proof.
  unfold outcome, try_finally, pop_state, modify. destruct (m w). reflexivity.
Qed.

(** Sending touches the outbox and the tick only. *)
Lemma answer_states m text w :
  user_states (exec (answer env m text) w) = user_states w.
Proof. unfold exec. unfold_monad. cbn. by case_match. Qed.

Lemma for_each_answer_states m texts w :
  user_states (exec (for_each texts (answer env m)) w) = user_states w.
Proof.
  revert w. induction texts as [|t texts IH]; intros w; [done|].
  cbn [for_each]. rewrite exec_bind.
  destruct (outcome _ w); [rewrite IH|]; apply answer_states.
Qed.

Lemma answer_long_states m s whole w :
  user_states (exec (answer_long env m s whole) w) = user_states w.
Proof.
  unfold answer_long. case_match;
    [apply for_each_answer_states | apply answer_states].
Qed.

(** With Telegram reachable, a loop of replies delivers them in order. *)
Lemma for_each_answer_delivered m texts w :
  (forall n, telegram_ok env n = true) ->
  for_each texts (answer env m) w =
  (with_outbox (fun o => o ++ map (reply_to m) texts)
     (with_tick (fun n => (length texts + n)%nat) w), Ok tt).
Proof.
  intros Htg. revert w. induction texts as [|t texts IH]; intros w.
  - destruct w. unfold_world. cbn. by rewrite app_nil_r.
  - cbn [for_each]. unfold bind at 1. unfold answer at 1. unfold_monad.
    rewrite Htg. cbn. rewrite IH. destruct w. unfold_world. cbn.
    rewrite <- app_assoc. repeat f_equal. lia.
Qed.

(** ** Menu selections *)

Lemma command_start_menu text t :
  menu_tag text = Some t -> command_start env text = false.
Proof.
  unfold menu_tag. intros H.
  repeat case_match; simplify_eq;
    match goal with
    | H : str_eqb _ _ = true |- _ => apply str_eqb_eq in H; subst text
    end; vm_compute; reflexivity.
Qed.

(** C10 (amended).  Whatever action is pending, a text equal to one of
    the five menu labels goes to that label's handler and no provider is
    called with it.  For the four prompting labels the pending action
    becomes the selected tag, whether or not the prompt can be delivered.
    For the notes label: when the notes are fetched and there is at least
    one, the pending action becomes [show_notes_list] and the numbered
    list is what is sent; when there is none, the reply is the empty-notes
    message and the pending action stays what it was; when the fetch
    fails, the reply is the failure message and the pending action stays
    what it was. *)
Theorem menu_label_selects_or_reports (m : message) (w : World) (t : tag) :
  menu_tag (msg_text m) = Some t ->
  let w' := exec (dispatch env m) w in
  let notes := notes_of (msg_from m) (summaries w) in
  calls w' = calls w /\
  match t with
  | ShowNotesList =>
    if sqlite_ok env (tick w)
    then
      match notes with
      | [] =>
        user_states w' = user_states w
        /\ (telegram_ok env (S (tick w)) = true ->
            outbox w' = outbox w ++ [reply_to m NO_NOTES])
      | _ :: _ =>
        user_states w' = <[msg_from m := ShowNotesList]> (user_states w)
        /\ (telegram_ok env (S (tick w)) = true ->
            outbox w' = outbox w
              ++ [reply_to m ((NOTES_HEADER ++ notes_listing 1 notes)
                              ++ NOTES_FOOTER)])
      end
    else
      user_states w' = user_states w
      /\ (telegram_ok env (S (tick w)) = true ->
          outbox w' = outbox w ++ [reply_to m NOTES_FAILED])
  | _ => user_states w' = <[msg_from m := t]> (user_states w)
  end.
Proof.
  intros Hm. unfold dispatch, exec. rewrite (command_start_menu _ _ Hm).
  unfold menu_tag in Hm.
  repeat match type of Hm with
         | (if ?b then _ else _) = _ => destruct b
         end; simplify_eq.
  all: unfold handle_summary, handle_search, handle_photo, handle_notes,
         handle_calculator; unfold_monad; unfold_world; cbn.
  1-3, 5: destruct (telegram_ok env (tick w)); cbn; split; reflexivity.
  destruct (sqlite_ok env (tick w)) eqn:Hsq; cbn.
  - destruct (notes_of (msg_from m) (summaries w)) as [|n l] eqn:Hnotes; cbn.
    + destruct (telegram_ok env (S (tick w))); cbn;
        [|destruct (telegram_ok env (S (S (tick w)))); cbn];
        (split; [reflexivity|]; split; [reflexivity|]);
        intros Ht; first [discriminate Ht | reflexivity].
    + destruct (telegram_ok env (S (tick w))) eqn:Htg; cbn;
        [|destruct (telegram_ok env (S (S (tick w)))); cbn];
        (split; [reflexivity|]; split; [reflexivity|]);
        intros Ht; first [discriminate Ht | reflexivity].
  - destruct (telegram_ok env (S (tick w))); cbn;
      (split; [reflexivity|]; split; [reflexivity|]);
      intros Ht; first [discriminate Ht | reflexivity].
Qed.

(** C9.  Selecting "show notes" with no stored note and no pending action
    gives the empty-notes message and leaves the pending action absent:
    the user's next free text gets the choose-from-the-menu hint. *)
Theorem show_notes_without_notes (m next : message) (w : World) :
  msg_text m = LABEL_NOTES ->
  user_states w !! msg_from m = None ->
  notes_of (msg_from m) (summaries w) = [] ->
  (forall n, telegram_ok env n = true) ->
  (forall n, sqlite_ok env n = true) ->
  msg_from next = msg_from m ->
  free_text env next = true ->
  let w1 := exec (dispatch env m) w in
  let w2 := exec (dispatch env next) w1 in
  outbox w1 = outbox w ++ [reply_to m NO_NOTES]
  /\ user_states w1 = user_states w
  /\ outbox w2 = outbox w1 ++ [reply_to next MENU_HINT]
  /\ user_states w2 !! msg_from m = None.
Proof.
  intros Hlabel Hnone Hnotes Htg Hsq Hfrom Hfree w1.
  assert (Hw1 : w1 = with_outbox (fun o => o ++ [reply_to m NO_NOTES])
                       (with_tick S (with_tick S w))).
  { unfold w1, dispatch, exec. rewrite Hlabel.
    change (command_start env LABEL_NOTES) with false.
    change (str_eqb LABEL_NOTES LABEL_SUMMARY) with false.
    change (str_eqb LABEL_NOTES LABEL_SEARCH) with false.
    change (str_eqb LABEL_NOTES LABEL_PHOTO) with false.
    rewrite str_eqb_refl. cbv iota.
    unfold handle_notes. unfold_monad. unfold_world. cbn.
    rewrite Hsq. cbn. rewrite Hnotes. cbn. by rewrite Htg. }
  clearbody w1. subst w1. cbn.
  unfold free_text in Hfree.
  repeat (apply andb_prop in Hfree as [Hfree ?]).
  apply bool_decide_eq_true in Hfree.
  match goal with H : bool_decide (msg_photo _ = _) = true |- _ =>
    apply bool_decide_eq_true in H; rename H into Hphoto end.
  match goal with H : bool_decide (menu_tag _ = _) = true |- _ =>
    apply bool_decide_eq_true in H; rename H into Hmenu end.
  match goal with H : negb _ = true |- _ =>
    apply negb_true_iff in H; rename H into Hcmd end.
  unfold menu_tag in Hmenu. unfold dispatch, exec. rewrite Hcmd, Hphoto.
  repeat case_match; simplify_eq;
    try match goal with
        | H : bool_decide (_ <> _) = false |- _ =>
          apply bool_decide_eq_false in H
        end; try done.
  unfold handle_text. unfold_monad. unfold_world. cbn.
  rewrite Hfrom, Hnone, Htg. cbn. done.
Qed.

(** ** Picking a note by its number *)

Lemma answer_long_delivered m s whole w :
  (forall n, telegram_ok env n = true) ->
  answer_long env m s whole w =
  (with_outbox
     (fun o => o ++ map (reply_to m)
                        (if (CHUNK <? length s)%nat then chunks s else [whole]))
     (with_tick
        (fun n => ((if (CHUNK <? length s)%nat then length (chunks s) else 1)
                   + n)%nat) w),
   Ok tt).
Proof.
  intros Htg. unfold answer_long. case_match.
  - by apply for_each_answer_delivered.
  - unfold_monad. by rewrite Htg.
Qed.

Lemma startswith_app p q : startswith p (p ++ q) = true.
Proof. induction p as [|x p IH]; [done|]. cbn. by rewrite N.eqb_refl. Qed.

Lemma str_in_unfold needle hay :
  str_in needle hay =
  startswith needle hay
  || match hay with [] => false | _ :: hay' => str_in needle hay' end.
Proof. by destruct hay. Qed.

Lemma str_in_app pre s post : str_in s (pre ++ s ++ post) = true.
Proof.
  induction pre as [|x pre IH]; rewrite str_in_unfold; cbn [app].
  - by rewrite startswith_app.
  - rewrite IH. apply orb_true_r.
Qed.

(** The apology of [handle_text] leaves a cleared entry cleared, whether
    or not it can be delivered. *)
Lemma apology_keeps_cleared m e w :
  user_states w !! msg_from m = None ->
  user_states
    (exec (logger e >> answer env m UNEXPECTED >> pop_state (msg_from m)) w)
    !! msg_from m = None.
Proof.
  intros Hnone. unfold exec. unfold_monad. unfold_world. cbn.
  destruct (telegram_ok env (tick w)); cbn; [apply lookup_delete_eq | done].
Qed.

(** The [finally] clause of the note branch clears the entry on every
    path, and the outer [except] clause cannot bring it back. *)
Lemma show_notes_list_clears (m : message) (w : World) :
  user_states w !! msg_from m = Some ShowNotesList ->
  user_states (exec (handle_text env m) w) !! msg_from m = None.
Proof.
  intros Hst. unfold exec, handle_text. unfold bind at 1, get_state, gets.
  rewrite Hst.
  match goal with |- context [(?f w).1] => change ((f w).1) with (exec f w) end.
  rewrite exec_try_except, outcome_finally_pop, exec_finally_pop.
  case_match; [apply lookup_delete_eq|].
  apply apology_keeps_cleared. apply lookup_delete_eq.
Qed.

(** C3.  With [show_notes_list] pending, the pending action is cleared
    whatever the text and whatever fails.  When the store and Telegram
    work: a text that reads as an integer k with 1 <= k <= N is answered
    with note k of the freshly fetched notes, in insertion order (its
    content in chunks, or one message ending in the content); any other
    integer, k = 0 and k = N + 1 among them, gets the wrong-number
    correction, and a text that is no integer gets the enter-a-number
    correction, both of the input-error class and neither the apology for
    an unexpected failure. *)
Theorem note_number_selection (m : message) (w : World) :
  user_states w !! msg_from m = Some ShowNotesList ->
  let notes := notes_of (msg_from m) (summaries w) in
  let w' := exec (handle_text env m) w in
  user_states w' !! msg_from m = None
  /\ ((forall n, telegram_ok env n = true) ->
      (forall n, sqlite_ok env n = true) ->
      match py_int env (msg_text m) with
      | Some k =>
        if (1 <=? k) && (k <=? Z.of_nat (length notes))
        then exists note replies,
          notes !! Z.to_nat (k - 1) = Some note
          /\ replies =
               (if (CHUNK <? length (content note))%nat
                then chunks (content note)
                else [py "📘 Конспект: " ++ topic note ++ NL ++ NL
                      ++ content note])
          /\ outbox w' = outbox w ++ map (reply_to m) replies
          /\ str_in (content note) (concat replies) = true
        else outbox w' = outbox w ++ [reply_to m BAD_NUMBER]
      | None => outbox w' = outbox w ++ [reply_to m NOT_A_NUMBER]
      end)
  /\ input_error BAD_NUMBER = true
  /\ input_error NOT_A_NUMBER = true
  /\ input_error UNEXPECTED = false.
Proof.
  intros Hst notes w'. split; [|split; [|by vm_compute]].
  - by apply show_notes_list_clears.
  - intros Htg Hsq.
    assert (Hrange : forall k,
      (0 <=? k - 1) && (k - 1 <? Z.of_nat (length notes))
      = (1 <=? k) && (k <=? Z.of_nat (length notes))).
    { intros k.
      destruct (Z.leb_spec 1 k), (Z.leb_spec 0 (k - 1)),
        (Z.leb_spec k (Z.of_nat (length notes))),
        (Z.ltb_spec (k - 1) (Z.of_nat (length notes))); cbn; lia. }
    destruct (py_int env (msg_text m)) as [k|] eqn:Hint;
      [destruct ((1 <=? k) && (k <=? Z.of_nat (length notes))) eqn:Hin|].
    + apply andb_prop in Hin as Hk. destruct Hk as [H1 HN].
      apply Z.leb_le in H1. apply Z.leb_le in HN.
      destruct (lookup_lt_is_Some_2 notes (Z.to_nat (k - 1)))
        as [note Hnote]; [lia|].
      exists note, (if (CHUNK <? length (content note))%nat
                    then chunks (content note)
                    else [py "📘 Конспект: " ++ topic note ++ NL ++ NL
                          ++ content note]).
      split; [done|]. split; [done|]. split.
      * unfold w', exec, handle_text. unfold_monad. unfold_world.
        rewrite Hst, Hint, Hsq. cbn -[Z.leb Z.ltb]. fold notes.
        rewrite Hrange, Hin, Hnote.
        rewrite answer_long_delivered by done. done.
      * case_match.
        -- rewrite chunks_concat.
           pose proof (str_in_app [] (content note) []) as E.
           by rewrite app_nil_r in E.
        -- cbn [concat]. rewrite app_nil_r, !app_assoc.
           pose proof (str_in_app
             (((py "📘 Конспект: " ++ topic note) ++ NL) ++ NL)
             (content note) []) as E.
           by rewrite app_nil_r in E.
    + unfold w', exec, handle_text. unfold_monad. unfold_world.
      rewrite Hst, Hint, Hsq. cbn -[Z.leb Z.ltb]. fold notes.
      rewrite Hrange, Hin, Htg. done.
    + unfold w', exec, handle_text. unfold_monad. unfold_world.
      rewrite Hst, Hint. cbn. rewrite Htg. done.
Qed.

(** ** Providers *)

Lemma generate_summary_world t w :
  after_call (CallSummary t) w (exec (generate_summary env t) w).
Proof.
  unfold after_call, exec, generate_summary. unfold_monad. cbn.
  repeat case_match; cbn; done.
Qed.

Lemma search_info_world q w :
  after_call (CallSearch q) w (exec (search_info env q) w).
Proof.
  unfold after_call, exec, search_info. unfold_monad. cbn.
  repeat case_match; cbn; done.
Qed.

Lemma ocr_from_photo_world p w :
  after_call (CallOcr p) w (exec (ocr_from_photo env p) w).
Proof.
  unfold after_call, exec, ocr_from_photo. unfold_monad. cbn.
  repeat case_match; cbn; done.
Qed.

Lemma solve_math_problem_world t w :
  after_call (CallSolve t) w (exec (solve_math_problem env t) w).
Proof.
  unfold after_call, exec, solve_math_problem. unfold_monad. cbn.
  repeat case_match; cbn; done.
Qed.

(** Every exception [ocr_from_photo] catches comes back as a text with the
    error word in it. *)
Lemma ocr_failure_bears_error_word p w e :
  tesseract env (tick w) p = Raised e -> ocr_caught e = true ->
  exists text, outcome (ocr_from_photo env p) w = Ok text
               /\ str_in ERROR_WORD text = true.
Proof.
  intros He Hc. unfold outcome, ocr_from_photo. unfold_monad. cbn.
  rewrite He. destruct e; try discriminate Hc; cbn; eexists; split; done.
Qed.

(** ** Long replies *)

(** The summary branch tests the very text it sends: a summary of more
    than 4000 characters goes out, after the progress message, as
    ceil(L / 4000) chunks in order, none longer than 4000 characters,
    that put together are the summary. *)
Lemma long_summary_is_chunked (m : message) (w : World) (summary : pystr) :
  user_states w !! msg_from m = Some Summary ->
  (forall n, telegram_ok env n = true) ->
  (forall n, sqlite_ok env n = true) ->
  (forall w0, outcome (generate_summary env (msg_text m)) w0 = Ok summary) ->
  (CHUNK < length summary)%nat ->
  outbox (exec (handle_text env m) w)
    = outbox w ++ reply_to m SUMMARY_PROGRESS
        :: map (reply_to m) (chunks summary)
  /\ length (chunks summary) = ceil_div (length summary) CHUNK
  /\ Forall (fun c : pystr => (length c <= CHUNK)%nat) (chunks summary)
  /\ concat (chunks summary) = summary.
Proof.
  intros Hst Htg Hsq Hsum Hlong.
  split; [|split; [apply chunks_length|split;
                   [apply chunks_bounded | apply chunks_concat]]].
  unfold exec, handle_text. unfold_monad. rewrite Hst. cbn. rewrite Htg. cbn.
  match goal with |- context [generate_summary env ?t ?W] =>
    pose proof (Hsum W) as Hout;
    pose proof (generate_summary_world t W) as Hw;
    unfold outcome in Hout; unfold exec in Hw;
    destruct (generate_summary env t W) as [w2 r2] eqn:E2
  end.
  cbn in Hout, Hw. subst r2.
  destruct Hw as (Hw1 & Hw2 & Hw3 & Hw4 & Hw5 & Hw6 & Hw7).
  cbn. rewrite Hsq. cbn.
  rewrite answer_long_delivered by done.
  apply Nat.ltb_lt in Hlong. rewrite Hlong. unfold_world. cbn.
  rewrite Hw5. cbn. by rewrite <- app_assoc.
Qed.

(** The run of the note branch up to the reply: the number is read, the
    notes are fetched, and note k is picked. *)
Lemma note_branch_reply (m : message) (w : World) (k : Z) (note : Note) :
  user_states w !! msg_from m = Some ShowNotesList ->
  sqlite_ok env (tick w) = true ->
  py_int env (msg_text m) = Some k ->
  1 <= k ->
  notes_of (msg_from m) (summaries w) !! Z.to_nat (k - 1) = Some note ->
  handle_text env m w =
  try_except
    (try_finally
       (try_except
          (answer_long env m (content note)
             (py "📘 Конспект: " ++ topic note ++ NL ++ NL ++ content note))
          (fun e => match e with
                    | ValueError => Some (answer env m NOT_A_NUMBER)
                    | _ => None
                    end))
       (pop_state (msg_from m)))
    (fun e => Some (logger e >> answer env m UNEXPECTED
                    >> pop_state (msg_from m)))
    (with_tick S w).
Proof.
  intros Hst Hsq Hint Hk Hnote.
  pose proof (lookup_lt_Some _ _ _ Hnote) as Hlen.
  assert (Hin : (0 <=? k - 1)
                && (k - 1 <? Z.of_nat
                      (length (notes_of (msg_from m) (summaries w)))) = true).
  { apply andb_true_intro. split; [apply Z.leb_le | apply Z.ltb_lt]; lia. }
  unfold handle_text. unfold_monad. unfold_world.
  rewrite Hst, Hint, Hsq. cbn -[Z.leb Z.ltb].
  rewrite Hin, Hnote. destruct w. reflexivity.
Qed.

(** On replay a content of more than 4000 characters goes out as its
    ceil(L / 4000) chunks, without the header. *)
Lemma long_note_is_chunked (m : message) (w : World) (k : Z) (note : Note) :
  user_states w !! msg_from m = Some ShowNotesList ->
  (forall n, telegram_ok env n = true) ->
  sqlite_ok env (tick w) = true ->
  py_int env (msg_text m) = Some k ->
  1 <= k ->
  notes_of (msg_from m) (summaries w) !! Z.to_nat (k - 1) = Some note ->
  (CHUNK < length (content note))%nat ->
  outbox (exec (handle_text env m) w)
    = outbox w ++ map (reply_to m) (chunks (content note))
  /\ length (chunks (content note)) = ceil_div (length (content note)) CHUNK
  /\ Forall (fun c : pystr => (length c <= CHUNK)%nat) (chunks (content note))
  /\ concat (chunks (content note)) = content note.
Proof.
  intros Hst Htg Hsq Hint Hk Hnote Hlong.
  split; [|split; [apply chunks_length|split;
                   [apply chunks_bounded | apply chunks_concat]]].
  unfold exec. rewrite (note_branch_reply m w k note) by done.
  unfold try_except at 1, try_finally, try_except.
  rewrite answer_long_delivered by done.
  apply Nat.ltb_lt in Hlong. rewrite Hlong. reflexivity.
Qed.

(** C2 (the code departs from it).  On replay the length that is tested
    is that of the note's content, and what is sent when the content has
    at most 4000 characters is the header, the topic and the content in
    one message.  So a reply body of more than 4000 characters whose
    content alone is within 4000 is tried once, whole: no chunk of it is
    ever sent, where ceil(L / 4000) > 1 chunks are due.  If Telegram
    refuses the message, all that follows is the apology. *)
Theorem replayed_note_is_measured_without_header
    (m : message) (w : World) (k : Z) (note : Note) :
  user_states w !! msg_from m = Some ShowNotesList ->
  sqlite_ok env (tick w) = true ->
  py_int env (msg_text m) = Some k ->
  1 <= k ->
  notes_of (msg_from m) (summaries w) !! Z.to_nat (k - 1) = Some note ->
  let reply := py "📘 Конспект: " ++ topic note ++ NL ++ NL ++ content note in
  (length (content note) <= CHUNK)%nat ->
  (CHUNK < length reply)%nat ->
  let taken := telegram_ok env (S (tick w)) in
  (exists rest,
     outbox (exec (handle_text env m) w)
       = outbox w
         ++ {| chat := msg_chat m; body := reply; markup := None;
               delivered := taken |} :: rest
     /\ (if taken then rest = []
         else map body rest = [UNEXPECTED]))
  /\ (1 < ceil_div (length reply) CHUNK)%nat.
Proof.
  intros Hst Hsq Hint Hk Hnote reply Hshort Hlong taken. split.
  - unfold exec. rewrite (note_branch_reply m w k note) by done.
    fold reply. unfold answer_long.
    apply Nat.ltb_ge in Hshort. rewrite Hshort.
    unfold taken. unfold_monad. unfold_world. cbn.
    destruct (telegram_ok env (S (tick w))); cbn.
    + exists []. done.
    + destruct (telegram_ok env (S (S (tick w)))); cbn;
        eexists; (split; [rewrite <- app_assoc; reflexivity | reflexivity]).
  - destruct (ceil_div_least (length reply) CHUNK chunk_size_pos) as [Hle _].
    destruct (ceil_div (length reply) CHUNK) as [|[|c]]; lia.
Qed.

(** ** Photos *)

Ltac run_ok Htg Hsq := repeat (progress (cbn; rewrite ?Htg, ?Hsq)).

Lemma downloaded_in_temp (p : pystr) (fs : gset pystr) :
  bool_decide (p ∈ {[ p ]} ∪ fs) = true.
Proof.
  apply bool_decide_eq_true_2, elem_of_union. left.
  by apply elem_of_singleton.
Qed.

(** A photo arrives while [photo] is pending, and Telegram and the store
    work; what the handler does, by what [ocr_from_photo] gives.  A
    returned text that has the error word in it is replied and nothing
    else happens.  Any other returned text is appended to the store as a
    note with topic "Задача с фото", and the math provider is then called
    on it.  If [ocr_from_photo] raises, the bot apologises and nothing is
    persisted. *)
Lemma photo_message_by_ocr_text (m : message) (w : World)
    (file_id : pystr) (ocr : result pystr) :
  user_states w !! msg_from m = Some Photo ->
  last (msg_photo m) = Some file_id ->
  (forall n, telegram_ok env n = true) ->
  (forall n, sqlite_ok env n = true) ->
  (forall w0, outcome (ocr_from_photo env (temp_path file_id)) w0 = ocr) ->
  let w' := exec (handle_photo_message env m) w in
  match ocr with
  | Ok text =>
    if str_in ERROR_WORD text
    then outbox w' = outbox w ++ [reply_to m PHOTO_PROGRESS; reply_to m text]
         /\ summaries w' = summaries w
         /\ calls w' = calls w ++ [CallOcr (temp_path file_id)]
    else (exists note, summaries w' = summaries w ++ [note]
            /\ note_user note = msg_from m /\ topic note = PHOTO_TOPIC
            /\ content note = text)
         /\ calls w' = calls w ++ [CallOcr (temp_path file_id);
                                    CallSolve text]
  | Raised _ =>
    outbox w' = outbox w ++ [reply_to m PHOTO_PROGRESS;
                             reply_to m PHOTO_FAILED]
    /\ summaries w' = summaries w
    /\ calls w' = calls w ++ [CallOcr (temp_path file_id)]
  end.
Proof.
  intros Hst Hlast Htg Hsq Hocr w'.
  unfold w', exec, handle_photo_message. unfold_monad.
  rewrite Hst, Hlast. run_ok Htg Hsq.
  match goal with |- context [ocr_from_photo env ?p ?W] =>
    pose proof (Hocr W) as Hout; pose proof (ocr_from_photo_world p W) as Hw;
    unfold outcome in Hout; unfold exec in Hw;
    destruct (ocr_from_photo env p W) as [w4 r4] eqn:E4
  end.
  cbn in Hout, Hw. subst r4.
  destruct Hw as (Hw1 & Hw2 & Hw3 & Hw4 & Hw5 & Hw6 & Hw7).
  unfold_world. cbn in *.
  destruct ocr as [text|e];
    [destruct (str_in ERROR_WORD text) eqn:Herr|].
  - run_ok Htg Hsq. rewrite Hw4, downloaded_in_temp. cbn.
    rewrite Hw5, Hw3, Hw6, <- app_assoc. done.
  - run_ok Htg Hsq.
    match goal with |- context [solve_math_problem env ?t ?W] =>
      pose proof (solve_math_problem_world t W) as Hs; unfold exec in Hs;
      destruct (solve_math_problem env t W) as [w7 r7] eqn:E7
    end.
    cbn in Hs. destruct Hs as (Hs1 & Hs2 & Hs3 & Hs4 & Hs5 & Hs6 & Hs7).
    rewrite Hw3, Hw6 in *.
    assert (Hin : bool_decide (temp_path file_id ∈ temp w7) = true)
      by (rewrite Hs4, Hw4; apply downloaded_in_temp).
    destruct r7 as [solution|e]; run_ok Htg Hsq; rewrite ?Hin; cbn.
    all: rewrite Hs3, Hs6; cbn; rewrite <- app_assoc; unfold insert_summary.
    all: split; [eexists; split; [reflexivity|done]|done].
  - run_ok Htg Hsq. rewrite Hw5, Hw3, Hw6, <- app_assoc. done.
Qed.

(** What [ocr_from_photo] returns once Tesseract has read the image: the
    text without the blanks around it, or the could-not-recognise text
    when nothing is left. *)
Lemma ocr_from_photo_reads (p raw : pystr) (w : World) :
  tesseract env (tick w) p = Ok raw ->
  outcome (ocr_from_photo env p) w
  = Ok (match strip raw with [] => OCR_EMPTY | _ :: _ => strip raw end).
Proof.
  intros Hraw. unfold outcome, ocr_from_photo. unfold_monad. cbn.
  rewrite Hraw. by destruct (strip raw).
Qed.

(** When Tesseract fails with an exception [ocr_from_photo] names, the
    bot replies with the error text and stops: no note, no solver. *)
Lemma extraction_failure_is_replied (m : message) (w : World)
    (file_id : pystr) (e : exn) :
  user_states w !! msg_from m = Some Photo ->
  last (msg_photo m) = Some file_id ->
  (forall n, telegram_ok env n = true) ->
  (forall n, sqlite_ok env n = true) ->
  (forall n, tesseract env n (temp_path file_id) = Raised e) ->
  ocr_caught e = true ->
  let w' := exec (handle_photo_message env m) w in
  exists text,
    str_in ERROR_WORD text = true
    /\ outbox w' = outbox w ++ [reply_to m PHOTO_PROGRESS; reply_to m text]
    /\ summaries w' = summaries w
    /\ calls w' = calls w ++ [CallOcr (temp_path file_id)].
Proof.
  intros Hst Hlast Htg Hsq Hraise Hc w'.
  assert (Hocr : exists text, str_in ERROR_WORD text = true /\
            forall w0, outcome (ocr_from_photo env (temp_path file_id)) w0
                       = Ok text).
  { destruct e; try discriminate Hc.
    - exists (OCR_FAILED ++ OCR_SETUP). split; [by vm_compute|]. intros w0.
      unfold outcome, ocr_from_photo. unfold_monad. cbn. by rewrite Hraise.
    - exists OCR_FAILED. split; [by vm_compute|]. intros w0.
      unfold outcome, ocr_from_photo. unfold_monad. cbn. by rewrite Hraise.
    - exists OCR_FAILED. split; [by vm_compute|]. intros w0.
      unfold outcome, ocr_from_photo. unfold_monad. cbn. by rewrite Hraise. }
  destruct Hocr as (text & Herr & Hocr). exists text. split; [done|].
  pose proof (photo_message_by_ocr_text m w file_id (Ok text)
                Hst Hlast Htg Hsq Hocr) as H.
  cbv zeta iota beta in H. rewrite Herr in H. exact H.
Qed.

(** A text read off the photo that bears no error word is stored as a
    note and sent to the solver. *)
Lemma extracted_text_is_stored (m : message) (w : World)
    (file_id raw : pystr) :
  user_states w !! msg_from m = Some Photo ->
  last (msg_photo m) = Some file_id ->
  (forall n, telegram_ok env n = true) ->
  (forall n, sqlite_ok env n = true) ->
  (forall n, tesseract env n (temp_path file_id) = Ok raw) ->
  strip raw <> [] ->
  str_in ERROR_WORD (strip raw) = false ->
  let w' := exec (handle_photo_message env m) w in
  (exists note, summaries w' = summaries w ++ [note]
     /\ note_user note = msg_from m /\ topic note = PHOTO_TOPIC
     /\ content note = strip raw)
  /\ calls w' = calls w ++ [CallOcr (temp_path file_id);
                             CallSolve (strip raw)].
Proof.
  intros Hst Hlast Htg Hsq Hraw Hne Herr w'.
  assert (Hocr : forall w0,
            outcome (ocr_from_photo env (temp_path file_id)) w0
            = Ok (strip raw)).
  { intros w0. rewrite (ocr_from_photo_reads _ raw) by apply Hraw.
    by destruct (strip raw). }
  pose proof (photo_message_by_ocr_text m w file_id (Ok (strip raw))
                Hst Hlast Htg Hsq Hocr) as H.
  cbv zeta iota beta in H. rewrite Herr in H. exact H.
Qed.

(** A photo with nothing to read on it: the could-not-recognise text
    bears no error word, so it is stored as a note and sent to the
    solver like a text that was read. *)
Lemma blank_photo_placeholder_is_stored (m : message) (w : World)
    (file_id raw : pystr) :
  user_states w !! msg_from m = Some Photo ->
  last (msg_photo m) = Some file_id ->
  (forall n, telegram_ok env n = true) ->
  (forall n, sqlite_ok env n = true) ->
  (forall n, tesseract env n (temp_path file_id) = Ok raw) ->
  strip raw = [] ->
  let w' := exec (handle_photo_message env m) w in
  (exists note, summaries w' = summaries w ++ [note]
     /\ note_user note = msg_from m /\ topic note = PHOTO_TOPIC
     /\ content note = OCR_EMPTY)
  /\ calls w' = calls w ++ [CallOcr (temp_path file_id);
                             CallSolve OCR_EMPTY].
Proof.
  intros Hst Hlast Htg Hsq Hraw Hblank w'.
  assert (Hocr : forall w0,
            outcome (ocr_from_photo env (temp_path file_id)) w0
            = Ok OCR_EMPTY).
  { intros w0. rewrite (ocr_from_photo_reads _ raw) by apply Hraw.
    by rewrite Hblank. }
  pose proof (photo_message_by_ocr_text m w file_id (Ok OCR_EMPTY)
                Hst Hlast Htg Hsq Hocr) as H.
  cbv zeta iota beta in H.
  replace (str_in ERROR_WORD OCR_EMPTY) with false in H by (by vm_compute).
  exact H.
Qed.

(** C4 (the code departs from it).  Whether extraction failed is decided
    by looking for the word "Ошибка" in the text [ocr_from_photo]
    returns.  So when Tesseract succeeds and the text it reads off the
    photo has that word in it, the bot takes the text for an error: it
    replies with the text and stops, no note is persisted and the math
    provider is not called, although extraction succeeded. *)
Theorem recognised_error_word_is_taken_for_failure (m : message) (w : World)
    (file_id raw : pystr) :
  user_states w !! msg_from m = Some Photo ->
  last (msg_photo m) = Some file_id ->
  (forall n, telegram_ok env n = true) ->
  (forall n, sqlite_ok env n = true) ->
  (forall n, tesseract env n (temp_path file_id) = Ok raw) ->
  str_in ERROR_WORD (strip raw) = true ->
  let w' := exec (handle_photo_message env m) w in
  outbox w' = outbox w ++ [reply_to m PHOTO_PROGRESS; reply_to m (strip raw)]
  /\ summaries w' = summaries w
  /\ calls w' = calls w ++ [CallOcr (temp_path file_id)].
Proof.
  intros Hst Hlast Htg Hsq Hraw Herr w'.
  assert (Hocr : forall w0,
            outcome (ocr_from_photo env (temp_path file_id)) w0
            = Ok (strip raw)).
  { intros w0. rewrite (ocr_from_photo_reads _ raw) by apply Hraw.
    by destruct (strip raw). }
  pose proof (photo_message_by_ocr_text m w file_id (Ok (strip raw))
                Hst Hlast Htg Hsq Hocr) as H.
  cbv zeta iota beta in H. rewrite Herr in H. exact H.
Qed.

(** The temporary file is removed when nothing fails. *)
Lemma photo_file_removed_when_all_goes_well (m : message) (w : World)
    (file_id text solution : pystr) :
  user_states w !! msg_from m = Some Photo ->
  last (msg_photo m) = Some file_id ->
  (forall n, telegram_ok env n = true) ->
  (forall n, sqlite_ok env n = true) ->
  (forall w0, outcome (ocr_from_photo env (temp_path file_id)) w0 = Ok text) ->
  (forall w0, outcome (solve_math_problem env text) w0 = Ok solution) ->
  temp_path file_id ∉ temp (exec (handle_photo_message env m) w).
Proof.
  intros Hst Hlast Htg Hsq Hocr Hsolve.
  unfold exec, handle_photo_message. unfold_monad.
  rewrite Hst, Hlast. run_ok Htg Hsq.
  match goal with |- context [ocr_from_photo env ?p ?W] =>
    pose proof (Hocr W) as Hout; pose proof (ocr_from_photo_world p W) as Hw;
    unfold outcome in Hout; unfold exec in Hw;
    destruct (ocr_from_photo env p W) as [w4 r4] eqn:E4
  end.
  cbn in Hout, Hw. subst r4.
  destruct Hw as (Hw1 & Hw2 & Hw3 & Hw4 & Hw5 & Hw6 & Hw7).
  unfold_world. cbn in *.
  destruct (str_in ERROR_WORD text) eqn:Herr.
  - run_ok Htg Hsq. rewrite Hw4, downloaded_in_temp. cbn.
    apply not_elem_of_difference. right. by apply elem_of_singleton.
  - run_ok Htg Hsq.
    match goal with |- context [solve_math_problem env ?t ?W] =>
      pose proof (Hsolve W) as Hout;
      pose proof (solve_math_problem_world t W) as Hs;
      unfold outcome in Hout; unfold exec in Hs;
      destruct (solve_math_problem env t W) as [w7 r7] eqn:E7
    end.
    cbn in Hout, Hs. subst r7.
    destruct Hs as (Hs1 & Hs2 & Hs3 & Hs4 & Hs5 & Hs6 & Hs7).
    cbn in Hs4. run_ok Htg Hsq.
    rewrite Hs4, Hw4, downloaded_in_temp. cbn.
    apply not_elem_of_difference. right. by apply elem_of_singleton.
Qed.

(** C5 (the code departs from it).  When the store fails on the insert of
    the photo note, the handler leaves through its [except] clause and the
    downloaded file stays in [temp/]: [os.remove] sits at the end of the
    [try] body, not in the [finally] clause. *)
Theorem photo_file_left_behind_on_store_failure (m : message) (w : World)
    (file_id text : pystr) :
  user_states w !! msg_from m = Some Photo ->
  last (msg_photo m) = Some file_id ->
  (forall n, telegram_ok env n = true) ->
  (forall n, sqlite_ok env n = false) ->
  (forall w0, outcome (ocr_from_photo env (temp_path file_id)) w0 = Ok text) ->
  str_in ERROR_WORD text = false ->
  let w' := exec (handle_photo_message env m) w in
  temp_path file_id ∈ temp w' /\ user_states w' !! msg_from m = None.
Proof.
  intros Hst Hlast Htg Hsq Hocr Herr w'.
  unfold w', exec, handle_photo_message. unfold_monad.
  rewrite Hst, Hlast. run_ok Htg Hsq.
  match goal with |- context [ocr_from_photo env ?p ?W] =>
    pose proof (Hocr W) as Hout; pose proof (ocr_from_photo_world p W) as Hw;
    unfold outcome in Hout; unfold exec in Hw;
    destruct (ocr_from_photo env p W) as [w4 r4] eqn:E4
  end.
  cbn in Hout, Hw. subst r4.
  destruct Hw as (Hw1 & Hw2 & Hw3 & Hw4 & Hw5 & Hw6 & Hw7).
  unfold_world. cbn in *. rewrite Herr. run_ok Htg Hsq.
  rewrite Hw4. split; [|apply lookup_delete_eq].
  apply elem_of_union. left. by apply elem_of_singleton.
Qed.

(** ** Clearing the pending action *)

(** The photo handler pops the entry in a [finally] clause. *)
Lemma handle_photo_message_clears (m : message) (w : World) :
  user_states w !! msg_from m = Some Photo ->
  user_states (exec (handle_photo_message env m) w) !! msg_from m = None.
Proof.
  intros Hst. unfold exec, handle_photo_message.
  unfold bind at 1, get_state, gets. rewrite Hst.
  match goal with |- context [(?f w).1] => change ((f w).1) with (exec f w) end.
  rewrite exec_finally_pop. apply lookup_delete_eq.
Qed.

(** The text handler clears the entry of a text action whenever Telegram
    takes its replies, whatever the store and the providers do. *)
Lemma handle_text_clears_when_reachable (m : message) (w : World) (t : tag) :
  user_states w !! msg_from m = Some t -> t <> Photo ->
  (forall n, telegram_ok env n = true) ->
  user_states (exec (handle_text env m) w) !! msg_from m = None.
Proof.
  intros Hst Hphoto Htg.
  destruct t; try done.
  - unfold exec, handle_text. unfold_monad. rewrite Hst. cbn. rewrite Htg. cbn.
    match goal with |- context [generate_summary env ?t ?W] =>
      destruct (generate_summary env t W) as [w2 [summary|e]] eqn:E2
    end; cbn; rewrite ?Htg; cbn; [|apply lookup_delete_eq].
    destruct (sqlite_ok env (tick w2)); cbn; rewrite ?Htg; cbn;
      [|apply lookup_delete_eq].
    rewrite answer_long_delivered by done. cbn. apply lookup_delete_eq.
  - unfold exec, handle_text. unfold_monad. rewrite Hst. cbn. rewrite Htg. cbn.
    match goal with |- context [search_info env ?t ?W] =>
      destruct (search_info env t W) as [w2 [r2|e]] eqn:E2
    end; cbn; rewrite ?Htg; cbn; apply lookup_delete_eq.
  - by apply show_notes_list_clears.
  - unfold exec, handle_text. unfold_monad. rewrite Hst. cbn. rewrite Htg. cbn.
    match goal with |- context [solve_math_problem env ?t ?W] =>
      destruct (solve_math_problem env t W) as [w2 [r2|e]] eqn:E2
    end; cbn; rewrite ?Htg; cbn; apply lookup_delete_eq.
Qed.

(** C1 (the code departs from it).  With a summary, a search or a
    calculation pending, when Telegram refuses both the progress message
    and the apology, the exception of the apology leaves [handle_text]
    before the [pop] that follows it: the pending action is still there. *)
Theorem undelivered_apology_keeps_pending (m : message) (w : World) (t : tag) :
  user_states w !! msg_from m = Some t ->
  t = Summary \/ t = Search \/ t = Calculator ->
  telegram_ok env (tick w) = false ->
  telegram_ok env (S (tick w)) = false ->
  user_states (exec (handle_text env m) w) !! msg_from m = Some t
  /\ outcome (handle_text env m) w = Raised TelegramError.
Proof.
  intros Hst Ht H0 H1.
  destruct Ht as [->|[->| ->]];
    unfold exec, outcome, handle_text; unfold_monad; rewrite Hst; cbn;
    rewrite H0; cbn; rewrite H1; cbn; done.
Qed.

(** ** The users table *)

Lemma has_user_elem user_id tbl :
  has_user user_id tbl = true <-> user_id ∈ tbl.*1.
Proof.
  unfold has_user. induction tbl as [|[u la] tbl IH]; cbn.
  - split; [done|]. by intros ?%elem_of_nil.
  - rewrite orb_true_iff, IH, Z.eqb_eq, elem_of_cons.
    split; (intros [E|?]; [left; by symmetry | by right]).
Qed.

Lemma has_user_false user_id tbl :
  has_user user_id tbl = false <-> user_id ∉ tbl.*1.
Proof.
  rewrite <- has_user_elem. by destruct (has_user user_id tbl).
Qed.

Lemma last_active_of_cons user_id u la tbl :
  last_active_of user_id ((u, la) :: tbl) =
  if u =? user_id then Some la else last_active_of user_id tbl.
Proof. unfold last_active_of. cbn. by destruct (u =? user_id). Qed.

Lemma last_active_of_absent user_id tbl :
  user_id ∉ tbl.*1 -> last_active_of user_id tbl = None.
Proof.
  induction tbl as [|[u la] tbl IH]; [done|].
  cbn. rewrite not_elem_of_cons, last_active_of_cons. intros [Hne Hnin].
  destruct (Z.eqb_spec u user_id); [congruence | auto].
Qed.

Lemma last_active_of_app_new user_id la tbl :
  user_id ∉ tbl.*1 ->
  last_active_of user_id (tbl ++ [(user_id, la)]) = Some la.
Proof.
  induction tbl as [|[u la'] tbl IH]; cbn.
  - intros _. by rewrite last_active_of_cons, Z.eqb_refl.
  - rewrite not_elem_of_cons, last_active_of_cons. intros [Hne Hnin].
    destruct (Z.eqb_spec u user_id); [congruence | auto].
Qed.

Lemma last_active_of_row user_id la tbl :
  NoDup tbl.*1 -> (user_id, la) ∈ tbl -> last_active_of user_id tbl = Some la.
Proof.
  induction tbl as [|[u la'] tbl IH]; cbn.
  - by intros _ ?%elem_of_nil.
  - rewrite NoDup_cons, elem_of_cons, last_active_of_cons.
    intros [Hnin Hnd] [[= -> ->]|Hin].
    + by rewrite Z.eqb_refl.
    + destruct (Z.eqb_spec u user_id) as [->|]; [|auto].
      destruct Hnin. apply list_elem_of_fmap. by exists (user_id, la).
Qed.

Lemma last_active_of_update_eq user_id now tbl :
  last_active_of user_id (update_last_active user_id now tbl) =
  (fun _ => Some now) <$> last_active_of user_id tbl.
Proof.
  unfold update_last_active.
  induction tbl as [|[u la] tbl IH]; [done|]. cbn [map fst].
  destruct (Z.eqb_spec u user_id) as [->|Hne].
  - by rewrite !last_active_of_cons, Z.eqb_refl.
  - rewrite !last_active_of_cons. destruct (Z.eqb_spec u user_id); [done|auto].
Qed.

Lemma last_active_of_update_ne user_id other now tbl :
  other <> user_id ->
  last_active_of other (update_last_active user_id now tbl) =
  last_active_of other tbl.
Proof.
  intros Hne. unfold update_last_active.
  induction tbl as [|[u la] tbl IH]; [done|]. cbn [map fst].
  destruct (Z.eqb_spec u user_id) as [->|Hne'].
  - rewrite !last_active_of_cons.
    destruct (Z.eqb_spec user_id other); [congruence|auto].
  - rewrite !last_active_of_cons. destruct (u =? other); auto.
Qed.

Lemma rows_of_absent user_id tbl :
  user_id ∉ tbl.*1 -> rows_of user_id tbl = 0%nat.
Proof.
  unfold rows_of. induction tbl as [|[u la] tbl IH]; [done|].
  rewrite fmap_cons, not_elem_of_cons. cbn [fst]. intros [Hne Hnin].
  rewrite filter_cons_False by (cbn; congruence). auto.
Qed.

Lemma rows_of_present user_id tbl :
  NoDup tbl.*1 -> user_id ∈ tbl.*1 -> rows_of user_id tbl = 1%nat.
Proof.
  induction tbl as [|[u la] tbl IH].
  - by intros _ ?%elem_of_nil.
  - rewrite fmap_cons, NoDup_cons, elem_of_cons. cbn [fst].
    intros [Hnin Hnd] Hin. unfold rows_of in *.
    destruct (decide (u = user_id)) as [->|Hne].
    + rewrite filter_cons_True by done. cbn [length].
      pose proof (rows_of_absent user_id tbl Hnin) as E.
      unfold rows_of in E. by rewrite E.
    + rewrite filter_cons_False by done. apply IH; [done|].
      destruct Hin; [congruence|done].
Qed.

Lemma insert_or_ignore_user_wf user_id now tbl :
  users_wf tbl -> users_wf (insert_or_ignore_user user_id now tbl).
Proof.
  intros [Hnd Hall]. unfold insert_or_ignore_user.
  destruct (has_user user_id tbl) eqn:Hhas; [done|].
  apply has_user_false in Hhas. split.
  - rewrite fmap_app. apply NoDup_app. split; [done|]. split.
    + intros x Hx [->|[]%elem_of_nil]%elem_of_cons. done.
    + apply NoDup_singleton.
  - apply Forall_app. split; [done|]. by repeat constructor.
Qed.

Lemma insert_or_ignore_user_has user_id now tbl :
  has_user user_id (insert_or_ignore_user user_id now tbl) = true.
Proof.
  unfold insert_or_ignore_user.
  destruct (has_user user_id tbl) eqn:Hhas; [done|].
  apply has_user_elem. rewrite fmap_app. apply elem_of_app. right.
  by apply list_elem_of_singleton.
Qed.

Lemma update_last_active_ids user_id now tbl :
  (update_last_active user_id now tbl).*1 = tbl.*1.
Proof.
  unfold update_last_active. induction tbl as [|[u la] tbl IH]; [done|].
  cbn. rewrite IH. by destruct (u =? user_id).
Qed.

Lemma update_last_active_wf user_id now tbl :
  users_wf tbl -> users_wf (update_last_active user_id now tbl).
Proof.
  intros [Hnd Hall]. split; [by rewrite update_last_active_ids|].
  unfold update_last_active. apply Forall_fmap.
  eapply Forall_impl; [done|]. intros [u la] Hsome. cbn in *.
  by destruct (u =? user_id).
Qed.

Lemma wf_last_active_some user_id tbl :
  users_wf tbl -> user_id ∈ tbl.*1 ->
  exists t, last_active_of user_id tbl = Some (Some t).
Proof.
  intros [Hnd Hall] ([u la] & -> & Hin)%list_elem_of_fmap. cbn.
  rewrite Forall_forall in Hall. destruct (Hall _ Hin) as [t Ht].
  cbn in Ht. subst la. exists t. by apply last_active_of_row.
Qed.

(** What [/start] does to the table when the store works. *)
Lemma start_cmd_users (m : message) (w : World) :
  (forall n, sqlite_ok env n = true) ->
  users (exec (start_cmd env m) w) =
  insert_or_ignore_user (msg_from m) (clock env (tick w)) (users w).
Proof.
  intros Hsq. unfold exec, start_cmd. unfold_monad. cbn. rewrite Hsq. cbn.
  by destruct (telegram_ok env _).
Qed.

(** C6 (as the code has it).  When the store works, [/start] adds the
    user's row with [last_active] set to the current time if the user has
    no row yet, and leaves the table as it is, [last_active] included, if
    the row exists. *)
Theorem start_cmd_inserts_or_ignores (m : message) (w : World) :
  (forall n, sqlite_ok env n = true) ->
  let user_id := msg_from m in
  let w' := exec (start_cmd env m) w in
  match last_active_of user_id (users w) with
  | Some old =>
    users w' = users w /\ last_active_of user_id (users w') = Some old
  | None =>
    users w' = users w ++ [(user_id, Some (clock env (tick w)))]
    /\ last_active_of user_id (users w') = Some (Some (clock env (tick w)))
  end.
Proof.
  intros Hsq user_id w'. unfold w'. rewrite start_cmd_users by done.
  fold user_id. unfold insert_or_ignore_user.
  destruct (has_user user_id (users w)) eqn:Hhas.
  - apply has_user_elem in Hhas as Hin.
    apply list_elem_of_fmap in Hin as ([u la] & Hu & Hin). cbn in Hu. subst u.
    destruct (last_active_of user_id (users w)) as [old|] eqn:Hold; [done|].
    exfalso. unfold last_active_of in Hold.
    destruct (find _ (users w)) as [r|] eqn:Hfind; [done|].
    eapply find_none in Hfind; [|by apply list_elem_of_In].
    cbn in Hfind. by rewrite Z.eqb_refl in Hfind.
  - apply has_user_false in Hhas.
    rewrite last_active_of_absent by done.
    by rewrite last_active_of_app_new.
Qed.

(** C8.  On a table that respects the primary key, with the store
    working, [/start] leaves exactly one row for the user, with a
    [last_active] that is not NULL; a second [/start] changes nothing. *)
Theorem start_cmd_twice (m : message) (w : World) :
  users_wf (users w) ->
  (forall n, sqlite_ok env n = true) ->
  let user_id := msg_from m in
  let w1 := exec (start_cmd env m) w in
  let w2 := exec (start_cmd env m) w1 in
  rows_of user_id (users w1) = 1%nat
  /\ (exists t, last_active_of user_id (users w1) = Some (Some t))
  /\ users w2 = users w1
  /\ rows_of user_id (users w2) = 1%nat
  /\ users_wf (users w2).
Proof.
  intros Hwf Hsq user_id w1 w2.
  assert (Hwf1 : users_wf (users w1)).
  { unfold w1. rewrite start_cmd_users by done.
    by apply insert_or_ignore_user_wf. }
  assert (Hin1 : user_id ∈ (users w1).*1).
  { unfold w1. rewrite start_cmd_users by done.
    apply has_user_elem, insert_or_ignore_user_has. }
  assert (H21 : users w2 = users w1).
  { unfold w2. rewrite start_cmd_users by done. fold user_id.
    unfold insert_or_ignore_user.
    by rewrite (proj2 (has_user_elem user_id (users w1)) Hin1). }
  split; [by apply rows_of_present; [apply Hwf1|]|].
  split; [by apply wf_last_active_some|].
  split; [done|]. rewrite H21.
  split; [by apply rows_of_present; [apply Hwf1|] | done].
Qed.

(** ** The inactivity check *)

Lemma sent_to_other user_id other ok :
  other <> user_id -> sent_to other [reminder user_id ok] = [].
Proof. intros Hne. unfold sent_to. by rewrite filter_cons_False by (cbn; congruence). Qed.

Lemma sent_to_self user_id ok :
  sent_to user_id [reminder user_id ok] = [reminder user_id ok].
Proof. unfold sent_to. by rewrite filter_cons_True. Qed.

Lemma check_user_step (row : Z * option Z) (w0 : World) :
  (forall n, sqlite_ok env n = true) ->
  let w1 := exec (check_user env row) w0 in
  outcome (check_user env row) w0 = Ok tt
  /\ (tick w0 <= tick w1)%nat
  /\ exists new, outbox w1 = outbox w0 ++ new
     /\ (forall other, other <> row.1 ->
          sent_to other new = []
          /\ last_active_of other (users w1) = last_active_of other (users w0))
     /\ row_checked env (tick w0) (tick w1) new
          (last_active_of row.1 (users w0)) (last_active_of row.1 (users w1))
          row.
Proof.
  intros Hsq. destruct row as [u [t|]]; unfold row_checked; cbn [fst snd].
  - unfold exec, outcome, check_user. unfold_monad. cbn [fst snd].
    destruct (THREE_DAYS <? clock env (tick w0) - t) eqn:Hlate; cbn.
    + destruct (telegram_ok env (S (tick w0))) eqn:Hok; cbn;
        rewrite ?Hsq; cbn.
      * split; [done|]. split; [lia|]. exists [reminder u true].
        split; [done|]. split.
        -- intros other Hne. split; [by apply sent_to_other|].
           by apply last_active_of_update_ne.
        -- exists (tick w0). split; [lia|]. rewrite Hlate, Hok.
           split; [apply sent_to_self | apply last_active_of_update_eq].
      * split; [done|]. split; [lia|]. exists [reminder u false].
        split; [done|]. split.
        -- intros other Hne. split; [by apply sent_to_other | done].
        -- exists (tick w0). split; [lia|]. rewrite Hlate, Hok.
           split; [apply sent_to_self | done].
    + split; [done|]. split; [lia|]. exists []. rewrite app_nil_r.
      split; [done|]. split; [done|].
      exists (tick w0). split; [lia|]. by rewrite Hlate.
  - cbn. split; [done|]. split; [lia|]. exists []. by rewrite app_nil_r.
Qed.

Lemma check_users_loop (rows : list (Z * option Z)) (w0 : World) :
  (forall n, sqlite_ok env n = true) ->
  NoDup rows.*1 ->
  let w1 := exec (for_each rows (check_user env)) w0 in
  outcome (for_each rows (check_user env)) w0 = Ok tt
  /\ (tick w0 <= tick w1)%nat
  /\ exists new, outbox w1 = outbox w0 ++ new
     /\ (forall other, other ∉ rows.*1 ->
          sent_to other new = []
          /\ last_active_of other (users w1) = last_active_of other (users w0))
     /\ (forall row, row ∈ rows ->
          row_checked env (tick w0) (tick w1) new
            (last_active_of row.1 (users w0))
            (last_active_of row.1 (users w1)) row).
Proof.
  intros Hsq. revert w0.
  induction rows as [|row rows IH]; intros w0 Hnd.
  - cbn. split; [done|]. split; [lia|]. exists []. rewrite app_nil_r.
    split; [done|]. split; [done|]. by intros row ?%elem_of_nil.
  - rewrite fmap_cons, NoDup_cons in Hnd. destruct Hnd as [Hfresh Hnd].
    cbn [for_each]. rewrite exec_bind, outcome_bind.
    destruct (check_user_step row w0 Hsq)
      as (Hout1 & Htick1 & new1 & Hbox1 & Hother1 & Hrow1).
    rewrite Hout1.
    set (w1 := exec (check_user env row) w0) in *.
    destruct (IH w1 Hnd) as (Hout2 & Htick2 & new2 & Hbox2 & Hother2 & Hrows2).
    set (w2 := exec (for_each rows (check_user env)) w1) in *.
    split; [done|]. split; [lia|]. exists (new1 ++ new2).
    split; [by rewrite Hbox2, Hbox1, app_assoc|]. split.
    + intros other [Hne Hnin]%not_elem_of_cons.
      destruct (Hother1 other Hne) as [Hs1 Hc1].
      destruct (Hother2 other Hnin) as [Hs2 Hc2].
      unfold sent_to in *. rewrite filter_app, Hs1, Hs2. split; [done|].
      by rewrite Hc2, Hc1.
    + intros row' [->|Hin]%elem_of_cons.
      * destruct (Hother2 row.1 Hfresh) as [Hs2 Hc2]. rewrite Hc2.
        unfold row_checked in *. unfold sent_to in *. rewrite filter_app, Hs2, app_nil_r.
        destruct row.2 as [t|]; [|done].
        destruct Hrow1 as (n & Hn & Hrow1). exists n. split; [lia|done].
      * assert (Hne : row'.1 <> row.1).
        { intros E. apply Hfresh. rewrite <- E. by apply list_elem_of_fmap_2. }
        destruct (Hother1 row'.1 Hne) as [Hs1 Hc1]. rewrite <- Hc1.
        specialize (Hrows2 row' Hin).
        unfold row_checked in *. unfold sent_to in *. rewrite filter_app, Hs1, app_nil_l.
        destruct row'.2 as [t|]; [|done].
        destruct Hrows2 as (n & Hn & Hrows2). exists n. split; [lia|done].
Qed.

(** C7.  On a tick of the scheduler, with the store working and one row
    per user: a row with NULL is left alone; for every other row the clock
    is read, and if its reading is more than three days past
    [last_active] one reminder is attempted; a delivered reminder sets
    [last_active] to the reading of the clock after the delivery, a
    refused one leaves it as it was; a user at or within three days gets
    no reminder and keeps the row as it was. *)
Theorem inactivity_check_rows (w : World) :
  (forall n, sqlite_ok env n = true) ->
  NoDup (users w).*1 ->
  let w' := exec (inactivity_check env) w in
  exists new, outbox w' = outbox w ++ new /\
  forall user_id last_active, (user_id, last_active) ∈ users w ->
    match last_active with
    | None =>
      sent_to user_id new = []
      /\ last_active_of user_id (users w') = Some None
    | Some t =>
      exists n, (tick w < n < tick w')%nat /\
        if THREE_DAYS <? clock env n - t
        then sent_to user_id new = [reminder user_id (telegram_ok env (S n))]
             /\ last_active_of user_id (users w')
                 = Some (Some (if telegram_ok env (S n)
                               then clock env (S (S n)) else t))
        else sent_to user_id new = []
             /\ last_active_of user_id (users w') = Some (Some t)
    end.
Proof.
  intros Hsq Hnd w'.
  assert (Hw' : w' = exec (for_each (users w) (check_user env)) (with_tick S w)).
  { unfold w', exec, inactivity_check. unfold try_except, bind at 1, sqlite.
    unfold bind at 1, step. rewrite Hsq. cbn [fst snd].
    change (users (with_tick S w)) with (users w).
    destruct (check_users_loop (users w) (with_tick S w) Hsq Hnd) as [Hout _].
    unfold outcome in Hout.
    destruct (for_each (users w) (check_user env) (with_tick S w)) as [w1 r].
    cbn in Hout. by subst r. }
  destruct (check_users_loop (users w) (with_tick S w) Hsq Hnd)
    as (_ & Htick & new & Hbox & _ & Hrows).
  rewrite <- Hw' in *. cbn in Htick, Hbox.
  exists new. split; [done|]. intros user_id last_active Hin.
  specialize (Hrows _ Hin). unfold row_checked in Hrows. cbn [fst snd] in Hrows.
  change (users (with_tick S w)) with (users w) in Hrows.
  rewrite (last_active_of_row _ _ _ Hnd Hin) in Hrows.
  destruct last_active as [t|]; [|done].
  destruct Hrows as (n & Hn & Hrows). exists n. cbn in Hn. split; [lia|].
  destruct (THREE_DAYS <? clock env n - t); [|done].
  destruct Hrows as [Hs Hc]. split; [done|]. rewrite Hc.
  by destruct (telegram_ok env (S n)).
Qed.

End Runs.

(** A text while a photo is awaited takes no branch of [handle_text]:
    nothing is sent and the pending action stays. *)
Lemma text_while_photo_pending (env : Env) (m : message) (w : World) :
  user_states w !! msg_from m = Some Photo ->
  handle_text env m w = (w, Ok tt).
Proof.
  intros Hst. unfold handle_text. unfold_monad. by rewrite Hst.
Qed.

(** * Concrete runs *)

Lemma replayed_note_is_measured_without_header_witness :
  let m := text_from_7 (py "1") in
  let w := with_titled_note (pending ShowNotesList) in
  let reply :=
    py "📘 Конспект: " ++ repeat 1103%N 300 ++ NL ++ NL
    ++ repeat 1103%N 3900 in
  let taken := telegram_ok reliable_env (S (tick w)) in
  (exists rest,
     outbox (exec (handle_text reliable_env m) w)
       = outbox w
         ++ {| chat := msg_chat m; body := reply; markup := None;
               delivered := taken |} :: rest
     /\ (if taken then rest = []
         else map body rest = [UNEXPECTED]))
  /\ (1 < ceil_div (length reply) CHUNK)%nat.
Proof.
  apply (replayed_note_is_measured_without_header reliable_env
           (text_from_7 (py "1")) (with_titled_note (pending ShowNotesList)) 1
           {| note_id := 1; note_user := 7; topic := repeat 1103%N 300;
              content := repeat 1103%N 3900; created_at := 0 |}).
  - reflexivity.
  - reflexivity.
  - reflexivity.
  - lia.
  - reflexivity.
  - apply Nat.leb_le. vm_compute. reflexivity.
  - apply Nat.ltb_lt. vm_compute. reflexivity.
Defined.

Lemma menu_label_selects_or_reports_witness :
  let m := text_from_7 LABEL_NOTES in
  let w := with_notes 2 (pending Summary) in
  let w' := exec (dispatch reliable_env m) w in
  let notes := notes_of (msg_from m) (summaries w) in
  calls w' = calls w
  /\ user_states w' = <[msg_from m := ShowNotesList]> (user_states w)
  /\ (telegram_ok reliable_env (S (tick w)) = true ->
      outbox w' = outbox w
        ++ [reply_to m ((NOTES_HEADER ++ notes_listing 1 notes)
                        ++ NOTES_FOOTER)]).
Proof.
  apply (menu_label_selects_or_reports reliable_env (text_from_7 LABEL_NOTES)
           (with_notes 2 (pending Summary)) ShowNotesList).
  reflexivity.
Defined.

(** C10 as stated fails: user 7 has [summary] pending and no stored note.
    The notes label is a menu label, yet the pending action is not
    overwritten and no list is shown; the user's next text is then taken
    for a summary topic. *)
Lemma notes_label_without_notes_keeps_pending :
  let m := text_from_7 LABEL_NOTES in
  let next := text_from_7 (py "Фотосинтез") in
  let w := pending Summary in
  let w1 := exec (dispatch reliable_env m) w in
  let w2 := exec (dispatch reliable_env next) w1 in
  menu_tag (msg_text m) = Some ShowNotesList
  /\ user_states w1 !! 7 = Some Summary
  /\ user_states w1 !! 7 <> Some ShowNotesList
  /\ outbox w1 = [reply_to m NO_NOTES]
  /\ calls w2 = [CallSummary (py "Фотосинтез")].
Proof. vm_compute. repeat split; congruence. Qed.

Lemma show_notes_without_notes_witness :
  let m := text_from_7 LABEL_NOTES in
  let next := text_from_7 (py "привет") in
  let w1 := exec (dispatch reliable_env m) fresh_world in
  let w2 := exec (dispatch reliable_env next) w1 in
  outbox w1 = outbox fresh_world ++ [reply_to m NO_NOTES]
  /\ user_states w1 = user_states fresh_world
  /\ outbox w2 = outbox w1 ++ [reply_to next MENU_HINT]
  /\ user_states w2 !! msg_from m = None.
Proof.
  apply (show_notes_without_notes reliable_env (text_from_7 LABEL_NOTES)
           (text_from_7 (py "привет")) fresh_world); reflexivity.
Defined.

Lemma note_number_selection_witness :
  let m := text_from_7 (py "2") in
  let w := with_notes 3 (pending ShowNotesList) in
  let notes := notes_of (msg_from m) (summaries w) in
  let w' := exec (handle_text reliable_env m) w in
  user_states w' !! msg_from m = None
  /\ ((forall n, telegram_ok reliable_env n = true) ->
      (forall n, sqlite_ok reliable_env n = true) ->
      match py_int reliable_env (msg_text m) with
      | Some k =>
        if (1 <=? k) && (k <=? Z.of_nat (length notes))
        then exists note replies,
          notes !! Z.to_nat (k - 1) = Some note
          /\ replies =
               (if (CHUNK <? length (content note))%nat
                then chunks (content note)
                else [py "📘 Конспект: " ++ topic note ++ NL ++ NL
                      ++ content note])
          /\ outbox w' = outbox w ++ map (reply_to m) replies
          /\ str_in (content note) (concat replies) = true
        else outbox w' = outbox w ++ [reply_to m BAD_NUMBER]
      | None => outbox w' = outbox w ++ [reply_to m NOT_A_NUMBER]
      end)
  /\ input_error BAD_NUMBER = true
  /\ input_error NOT_A_NUMBER = true
  /\ input_error UNEXPECTED = false.
Proof.
  apply (note_number_selection reliable_env (text_from_7 (py "2"))
           (with_notes 3 (pending ShowNotesList))).
  reflexivity.
Defined.

Lemma recognised_error_word_is_taken_for_failure_witness :
  let m := photo_from_7 in
  let w := pending Photo in
  let w' := exec (handle_photo_message error_page_env m) w in
  outbox w' = outbox w ++ [reply_to m PHOTO_PROGRESS;
                           reply_to m (strip (py "Ошибка 404"))]
  /\ summaries w' = summaries w
  /\ calls w' = calls w ++ [CallOcr (temp_path (py "large"))].
Proof.
  apply (recognised_error_word_is_taken_for_failure error_page_env
           photo_from_7 (pending Photo) (py "large") (py "Ошибка 404"));
    reflexivity.
Defined.

Lemma photo_file_left_behind_on_store_failure_witness :
  let m := photo_from_7 in
  let w' := exec (handle_photo_message locked_db_env m) (pending Photo) in
  temp_path (py "large") ∈ temp w' /\ user_states w' !! msg_from m = None.
Proof.
  apply (photo_file_left_behind_on_store_failure locked_db_env photo_from_7
           (pending Photo) (py "large") (py "2+2")); reflexivity.
Defined.

Lemma undelivered_apology_keeps_pending_witness :
  let m := text_from_7 (py "Фотосинтез") in
  user_states (exec (handle_text offline_env m) (pending Summary))
    !! msg_from m = Some Summary
  /\ outcome (handle_text offline_env m) (pending Summary)
     = Raised TelegramError.
Proof.
  apply (undelivered_apology_keeps_pending offline_env
           (text_from_7 (py "Фотосинтез")) (pending Summary) Summary);
    [reflexivity | by left | reflexivity | reflexivity].
Defined.

Lemma start_cmd_inserts_or_ignores_witness :
  let m := text_from_7 (py "/start") in
  let w := with_user_7 (T0 - DAY) fresh_world in
  let user_id := msg_from m in
  let w' := exec (start_cmd reliable_env m) w in
  match last_active_of user_id (users w) with
  | Some old =>
    users w' = users w /\ last_active_of user_id (users w') = Some old
  | None =>
    users w' = users w ++ [(user_id, Some (clock reliable_env (tick w)))]
    /\ last_active_of user_id (users w')
       = Some (Some (clock reliable_env (tick w)))
  end.
Proof.
  apply (start_cmd_inserts_or_ignores reliable_env (text_from_7 (py "/start"))
           (with_user_7 (T0 - DAY) fresh_world)).
  reflexivity.
Defined.

(** C6 as stated fails: user 7 was last active a day before; [/start] at
    time [T0] leaves [last_active] at the old value. *)
Lemma start_cmd_keeps_old_last_active :
  let m := text_from_7 (py "/start") in
  let w := with_user_7 (T0 - DAY) fresh_world in
  let w' := exec (start_cmd reliable_env m) w in
  clock reliable_env (tick w) = T0
  /\ last_active_of 7 (users w) = Some (Some (T0 - DAY))
  /\ last_active_of 7 (users w') = Some (Some (T0 - DAY))
  /\ last_active_of 7 (users w') <> Some (Some T0).
Proof. vm_compute. repeat split; congruence. Qed.

Lemma start_cmd_twice_witness :
  let m := text_from_7 (py "/start") in
  let user_id := msg_from m in
  let w1 := exec (start_cmd reliable_env m) fresh_world in
  let w2 := exec (start_cmd reliable_env m) w1 in
  rows_of user_id (users w1) = 1%nat
  /\ (exists t, last_active_of user_id (users w1) = Some (Some t))
  /\ users w2 = users w1
  /\ rows_of user_id (users w2) = 1%nat
  /\ users_wf (users w2).
Proof.
  apply (start_cmd_twice reliable_env (text_from_7 (py "/start")) fresh_world);
    [|reflexivity].
  split; [apply NoDup_nil_2 | apply Forall_nil_2].
Defined.

Lemma inactivity_check_rows_witness :
  let w := with_user_7 (T0 - 4 * DAY) fresh_world in
  let w' := exec (inactivity_check reliable_env) w in
  exists new, outbox w' = outbox w ++ new /\
  forall user_id last_active, (user_id, last_active) ∈ users w ->
    match last_active with
    | None =>
      sent_to user_id new = []
      /\ last_active_of user_id (users w') = Some None
    | Some t =>
      exists n, (tick w < n < tick w')%nat /\
        if THREE_DAYS <? clock reliable_env n - t
        then sent_to user_id new
             = [reminder user_id (telegram_ok reliable_env (S n))]
             /\ last_active_of user_id (users w')
                 = Some (Some (if telegram_ok reliable_env (S n)
                               then clock reliable_env (S (S n)) else t))
        else sent_to user_id new = []
             /\ last_active_of user_id (users w') = Some (Some t)
    end.
Proof.
  apply (inactivity_check_rows reliable_env
           (with_user_7 (T0 - 4 * DAY) fresh_world)); [reflexivity|].
  apply NoDup_singleton.
Defined.

(** A body of 4500 characters goes out as 4000 and 500. *)
Example chunks_of_4500 :
  map length (chunks (repeat 1103%N 4500)) = [4000; 500]%nat.
Proof. vm_compute. reflexivity. Qed.

(** [/start] on a fresh database: the greeting with the five buttons, two
    per row, and the user's row. *)
Example start_on_fresh_database :
  let w := exec (dispatch reliable_env (text_from_7 (py "/start"))) fresh_world in
  outbox w = [ {| chat := 7; body := GREETING; markup := Some study_keyboard;
                  delivered := true |} ]
  /\ map length study_keyboard = [2; 2; 1]%nat
  /\ users w = [(7, Some T0)].
Proof. vm_compute. repeat split. Qed.

(** The summary scenario: select the menu item, send a topic; a note with
    that topic is stored, its content is what was replied, and nothing is
    pending afterwards. *)
Example summary_scenario :
  let w1 := exec (dispatch reliable_env (text_from_7 LABEL_SUMMARY)) fresh_world in
  let w2 := exec (dispatch reliable_env (text_from_7 (py "Фотосинтез"))) w1 in
  user_states w1 !! 7 = Some Summary
  /\ map topic (summaries w2) = [py "Фотосинтез"]
  /\ map body (outbox w2)
     = [PROMPT_SUMMARY; SUMMARY_PROGRESS] ++ map content (summaries w2)
  /\ user_states w2 !! 7 = None.
Proof. vm_compute. repeat split. Qed.

(** A user four days idle whose reminder is refused keeps the old
    [last_active], and so is tried again on the next tick. *)
Example refused_reminder_is_retried :
  let env := flaky_env (fun _ => true) in
  let w := with_user_7 (T0 - 4 * DAY) fresh_world in
  let w1 := exec (inactivity_check env) w in
  let w2 := exec (inactivity_check env) w1 in
  users w2 = users w
  /\ outbox w2 = [reminder 7 false; reminder 7 false].
Proof. vm_compute. repeat split. Qed.

(** The note with a topic of 300 letters and a content of 3900: picked
    by its number, it goes out as one message of 4214 characters. *)
Example titled_note_goes_out_in_one_message :
  let w := with_titled_note (pending ShowNotesList) in
  let w' := exec (dispatch reliable_env (text_from_7 (py "1"))) w in
  map (fun s => length (body s)) (outbox w') = [4214]%nat
  /\ ceil_div 4214 CHUNK = 2%nat.
Proof. vm_compute. repeat split. Qed.

(** An empty OCR output is replaced by the could-not-recognise text, which
    bears no error word: it is stored as a note and sent to the solver. *)
Example empty_ocr_output_is_stored :
  let env :=
    {| telegram_ok := telegram_ok reliable_env;
       sqlite_ok := sqlite_ok reliable_env;
       clock := clock reliable_env;
       wikipedia := wikipedia reliable_env;
       duckduckgo := duckduckgo reliable_env;
       tesseract := fun _ _ => Ok (py "  ");
       wolfram := wolfram reliable_env;
       py_int := parse_decimal;
       is_me := is_me reliable_env |} in
  let w := exec (handle_photo_message env photo_from_7) (pending Photo) in
  map content (summaries w) = [OCR_EMPTY]
  /\ calls w = [CallOcr (temp_path (py "large")); CallSolve OCR_EMPTY].
Proof. vm_compute. repeat split. Qed.

(** A recognised text that itself contains the error word is replied as
    it is; it is not stored and not sent to the solver. *)
Example recognised_error_word_is_not_stored :
  let env :=
    {| telegram_ok := telegram_ok reliable_env;
       sqlite_ok := sqlite_ok reliable_env;
       clock := clock reliable_env;
       wikipedia := wikipedia reliable_env;
       duckduckgo := duckduckgo reliable_env;
       tesseract := fun _ _ => Ok (py "Ошибка измерения 5%");
       wolfram := wolfram reliable_env;
       py_int := parse_decimal;
       is_me := is_me reliable_env |} in
  let w := exec (handle_photo_message env photo_from_7) (pending Photo) in
  summaries w = []
  /\ map body (outbox w) = [PHOTO_PROGRESS; py "Ошибка измерения 5%"]
  /\ calls w = [CallOcr (temp_path (py "large"))].
Proof. vm_compute. repeat split. Qed.

(** * More on chunking *)

Section ChunkShapes.
Local Open Scope nat_scope.
Context {A : Type}.
Implicit Types (s c : list A) (fuel i stop step k : nat).

Lemma range_from_lookup fuel i stop step k :
  0 < step -> stop <= i + fuel ->
  range_from fuel i stop step !! k =
  if i + k * step <? stop then Some (i + k * step) else None.
Proof.
  intros Hs. revert i k.
  induction fuel as [|fuel IH]; intros i k Hf; cbn [range_from].
  - destruct (Nat.ltb_spec (i + k * step) stop); [nia | done].
  - destruct (Nat.ltb_spec i stop) as [Hlt|Hge].
    + destruct k as [|k]; cbn [lookup list_lookup].
      * rewrite Nat.add_0_r. by destruct (Nat.ltb_spec i stop); [|lia].
      * rewrite IH by lia.
        replace (i + step + k * step) with (i + S k * step) by lia. done.
    + destruct (Nat.ltb_spec (i + k * step) stop); [nia | done].
Qed.

(** X1.  The k-th chunk of a body is [body[4000k : 4000k + 4000]]; no
    chunk is empty, and every chunk but the last has exactly 4000
    characters. *)
Theorem chunk_shapes s k c :
  chunks s !! k = Some c ->
  c = slice s (k * CHUNK) (k * CHUNK + CHUNK)
  /\ c <> []
  /\ (S k < length (chunks s) -> length c = CHUNK).
Proof.
  pose proof (@chunk_size_pos) as Hpos.
  unfold chunks, py_range. rewrite list_lookup_fmap, length_map.
  intros Hk.
  destruct (range_from (length s) 0 (length s) CHUNK !! k) as [i|] eqn:Hi;
    [|done].
  cbn in Hk. injection Hk as <-.
  rewrite range_from_lookup in Hi by lia. cbn [Nat.add] in Hi.
  destruct (Nat.ltb_spec (k * CHUNK) (length s)) as [Hlt|]; [|done].
  injection Hi as <-. split; [done|]. split.
  - intros E. apply (f_equal length) in E. unfold slice in E.
    rewrite length_take, length_drop in E. cbn in E. lia.
  - intros Hnext. apply lookup_lt_is_Some_2 in Hnext as [j Hj].
    rewrite range_from_lookup in Hj by lia. cbn [Nat.add] in Hj.
    destruct (Nat.ltb_spec (S k * CHUNK) (length s)) as [Hlt'|]; [|done].
    unfold slice. rewrite length_take, length_drop. lia.
Qed.

End ChunkShapes.

Section PartialDelivery.
Variable env : Env.

Lemma for_each_answer_refused m texts w k text :
  texts !! k = Some text ->
  (forall j, (j < k)%nat -> telegram_ok env (tick w + j) = true) ->
  telegram_ok env (tick w + k) = false ->
  for_each texts (answer env m) w =
  (with_outbox
     (fun o => o ++ map (reply_to m) (take k texts)
                 ++ [ {| chat := msg_chat m; body := text; markup := None;
                         delivered := false |} ])
     (with_tick (fun n => (S k + n)%nat) w),
   Raised TelegramError).
Proof.
  revert w k. induction texts as [|t texts IH]; intros w k Hk Hok Hno;
    [done|].
  cbn [for_each]. unfold bind at 1. unfold answer at 1.
  unfold send_message, bind, step, modify, ret, raise.
  destruct k as [|k].
  - injection Hk as ->. rewrite Nat.add_0_r in Hno. rewrite Hno. cbn.
    destruct w. unfold_world. done.
  - cbn in Hk. specialize (Hok 0%nat ltac:(lia)) as H0.
    rewrite Nat.add_0_r in H0. rewrite H0. cbn.
    rewrite (IH _ k Hk).
    + destruct w. unfold_world. cbn. rewrite <- app_assoc.
      repeat f_equal. lia.
    + intros j Hj. cbn. specialize (Hok (S j) ltac:(lia)).
      by replace (S (tick w + j))%nat with (tick w + S j)%nat by lia.
    + cbn. by replace (S (tick w + k))%nat with (tick w + S k)%nat by lia.
Qed.

(** X2.  When Telegram refuses the k-th chunk of a long body, the chunks
    before it are delivered, the refused one is the last that is tried,
    and the exception leaves the loop: the rest of the body is never
    sent. *)
Theorem long_reply_stops_at_refusal (m : message) (s whole c : pystr)
    (w : World) (k : nat) :
  (CHUNK < length s)%nat ->
  chunks s !! k = Some c ->
  (forall j, (j < k)%nat -> telegram_ok env (tick w + j) = true) ->
  telegram_ok env (tick w + k) = false ->
  outbox (exec (answer_long env m s whole) w)
    = outbox w ++ map (reply_to m) (take k (chunks s))
        ++ [ {| chat := msg_chat m; body := c; markup := None;
                delivered := false |} ]
  /\ outcome (answer_long env m s whole) w = Raised TelegramError.
Proof.
  intros Hlong Hk Hok Hno. unfold answer_long, exec, outcome.
  apply Nat.ltb_lt in Hlong. rewrite Hlong.
  by rewrite (for_each_answer_refused m _ w k c Hk Hok Hno).
Qed.

End PartialDelivery.

(** * Frames of the handlers *)

Section Frames.
Variable env : Env.

Lemma exec_try_finally {A} (m : M A) (fin : M unit) w :
  exec (try_finally m fin) w = exec fin (exec m w).
Proof.
  unfold exec, try_finally. destruct (m w) as [w1 r]. cbn.
  by destruct (fin w1) as [w2 [[]|e]].
Qed.

Section Generic.
Context (R : World -> World -> Prop) `{!Frame R}.

Lemma keeps_ret {A} (a : A) : keeps R (ret a).
Proof. intros w. apply frame_refl. Qed.

Lemma keeps_raise {A} (e : exn) : keeps R (raise (A:=A) e).
Proof. intros w. apply frame_refl. Qed.

Lemma keeps_bind {A B} (m : M A) (k : A -> M B) :
  keeps R m -> (forall a, keeps R (k a)) -> keeps R (bind m k).
Proof.
  intros Hm Hk w. rewrite exec_bind. destruct (outcome m w); [|apply Hm].
  eapply frame_trans; [apply Hm | apply Hk].
Qed.

Lemma keeps_try_except {A} (m : M A) (h : exn -> option (M A)) :
  keeps R m -> (forall e k, h e = Some k -> keeps R k) ->
  keeps R (try_except m h).
Proof.
  intros Hm Hh w. rewrite exec_try_except.
  destruct (outcome m w) as [a|e]; [apply Hm|].
  destruct (h e) as [k|] eqn:Hk; [|apply Hm].
  eapply frame_trans; [apply Hm | by apply (Hh e)].
Qed.

Lemma keeps_try_finally {A} (m : M A) (fin : M unit) :
  keeps R m -> keeps R fin -> keeps R (try_finally m fin).
Proof.
  intros Hm Hf w. rewrite exec_try_finally.
  eapply frame_trans; [apply Hm | apply Hf].
Qed.

Lemma keeps_for_each {A} (xs : list A) (f : A -> M unit) :
  (forall x, keeps R (f x)) -> keeps R (for_each xs f).
Proof.
  intros Hf. induction xs as [|x xs IH]; [apply keeps_ret|].
  cbn [for_each]. by apply keeps_bind.
Qed.

Lemma keeps_modify (f : World -> World) :
  (forall w, R w (f w)) -> keeps R (modify f).
Proof. intros Hf w. apply Hf. Qed.

Lemma keeps_gets {A} (f : World -> A) : keeps R (gets f).
Proof. intros w. apply frame_refl. Qed.

Lemma keeps_step : keeps R step.
Proof. intros w. apply frame_tick. Qed.

(** Sending stays within [R] when the attempt in the outbox does. *)
Lemma keeps_send_message_to to text kb :
  (forall w ok, R w (with_outbox (fun o => o ++
     [ {| chat := to; body := text; markup := kb; delivered := ok |} ]) w)) ->
  keeps R (send_message env to text kb).
Proof.
  intros Hout. unfold send_message.
  apply keeps_bind; [apply keeps_step|]. intros n.
  apply keeps_bind; [apply keeps_modify; intros w; apply Hout|].
  intros _. destruct (telegram_ok env n); [apply keeps_ret | apply keeps_raise].
Qed.

Lemma keeps_send_message `{!Outgoing R} to text kb :
  keeps R (send_message env to text kb).
Proof. apply keeps_send_message_to. intros w ok. apply outgoing. Qed.

Lemma keeps_answer `{!Outgoing R} m text : keeps R (answer env m text).
Proof. apply keeps_send_message. Qed.

Lemma keeps_answer_long `{!Outgoing R} m s whole :
  keeps R (answer_long env m s whole).
Proof.
  unfold answer_long. destruct (CHUNK <? length s)%nat.
  - apply keeps_for_each. intros x. apply keeps_answer.
  - apply keeps_answer.
Qed.

Lemma keeps_logger e : keeps R (logger e).
Proof. apply keeps_modify. intros w. apply frame_log. Qed.

Lemma keeps_called `{!Calling R} c : keeps R (called c).
Proof. apply keeps_modify. intros w. apply calling. Qed.

Lemma keeps_datetime_now : keeps R (datetime_now env).
Proof.
  unfold datetime_now. apply keeps_bind; [apply keeps_step|].
  intros n. apply keeps_ret.
Qed.

Lemma keeps_get_state user_id : keeps R (get_state user_id).
Proof. apply keeps_gets. Qed.

Lemma keeps_get_file file_id : keeps R (get_file env file_id).
Proof.
  unfold get_file. apply keeps_bind; [apply keeps_step|]. intros n.
  destruct (telegram_ok env n); [apply keeps_ret | apply keeps_raise].
Qed.

(** A statement on the store stays within [R] when its effect does. *)
Lemma keeps_sqlite {A} (f : nat -> World -> World * A) :
  (forall n w, R w (f n w).1) -> keeps R (sqlite env f).
Proof.
  intros Hf. unfold sqlite. apply keeps_bind; [apply keeps_step|]. intros n.
  destruct (sqlite_ok env n); [|apply keeps_raise].
  intros w. unfold exec. specialize (Hf n w). by destruct (f n w).
Qed.

Lemma keeps_generate_summary `{!Calling R} t :
  keeps R (generate_summary env t).
Proof.
  unfold generate_summary.
  apply keeps_bind; [apply keeps_called|]. intros _.
  apply keeps_bind; [apply keeps_step|]. intros n.
  destruct (wikipedia env n t) as [[secs|]|e]; try apply keeps_ret.
  apply keeps_bind; [apply keeps_logger|]. intros _. apply keeps_ret.
Qed.

Lemma keeps_search_info `{!Calling R} q :
  keeps R (search_info env q).
Proof.
  unfold search_info.
  apply keeps_bind; [apply keeps_called|]. intros _.
  apply keeps_bind; [apply keeps_step|]. intros n.
  destruct (duckduckgo env n q) as [[abstract url]|e].
  - destruct (default [] abstract); apply keeps_ret.
  - destruct e; try apply keeps_raise;
      (apply keeps_bind; [apply keeps_logger|]; intros _; apply keeps_ret).
Qed.

Lemma keeps_ocr_from_photo `{!Calling R} p :
  keeps R (ocr_from_photo env p).
Proof.
  unfold ocr_from_photo.
  apply keeps_bind; [apply keeps_called|]. intros _.
  apply keeps_bind; [apply keeps_step|]. intros n.
  destruct (tesseract env n p) as [text|e].
  - destruct (strip text); apply keeps_ret.
  - destruct e; try apply keeps_raise;
      (apply keeps_bind; [apply keeps_logger|]; intros _; apply keeps_ret).
Qed.

Lemma keeps_solve_math_problem `{!Calling R} t :
  keeps R (solve_math_problem env t).
Proof.
  unfold solve_math_problem.
  apply keeps_bind; [apply keeps_called|]. intros _.
  apply keeps_bind; [apply keeps_step|]. intros n.
  destruct (wolfram env n t) as [[status solution]|e].
  - destruct (status =? 501); apply keeps_ret.
  - destruct e; try apply keeps_raise;
      (apply keeps_bind; [apply keeps_logger|]; intros _; apply keeps_ret).
Qed.

End Generic.

Ltac keeps_handler :=
  let e := fresh "e" in let k := fresh "k" in let H := fresh "H" in
  intros e k H; cbv beta in H;
  lazymatch type of H with
  | Some _ = Some _ => injection H as <-
  | _ => destruct e; try discriminate H; injection H as <-
  end.

Ltac frame_inst :=
  lazymatch goal with
  | |- Frame _ => apply _
  | |- Outgoing _ => apply _
  | |- Calling _ => apply _
  | |- _ => idtac
  end.

Ltac kapply L := apply L; frame_inst.

(** [ws] proves that a change of the world stays within the relation. *)
Ltac keeps_with ws :=
  repeat first
    [ kapply keeps_ret | kapply keeps_raise
    | kapply keeps_answer | kapply keeps_answer_long
    | kapply keeps_send_message
    | kapply keeps_logger | kapply keeps_called | kapply keeps_datetime_now
    | kapply keeps_get_state | kapply keeps_get_file
    | kapply keeps_generate_summary | kapply keeps_search_info
    | kapply keeps_ocr_from_photo | kapply keeps_solve_math_problem
    | kapply keeps_step | kapply keeps_gets
    | kapply keeps_sqlite; intros ? ?; cbn [fst]; ws
    | kapply keeps_modify; intros ?; ws
    | kapply keeps_try_finally
    | kapply keeps_try_except; [|keeps_handler]
    | kapply keeps_bind; [|intros ?]
    | match goal with
      | |- keeps _ (match ?x with _ => _ end) => destruct x
      end ].

(** ** What a handler may touch *)

Ltac frame_parts :=
  split_and!; cbn;
  try done; try lia; try (by apply prefix_app_r);
  try (exists []; split; [by rewrite app_nil_r | by constructor]).

#[local] Instance grows_frame user_id : Frame (grows user_id).
Proof.
  split.
  - intros w. unfold grows. frame_parts.
  - intros w1 w2 w3
      (Hs & (n1 & Hn1 & Hf1) & (u1 & Hu1 & Hg1) & Ho & Hc & Hl & Ht)
      (Hs' & (n2 & Hn2 & Hf2) & (u2 & Hu2 & Hg2) & Ho' & Hc' & Hl' & Ht').
    unfold grows. split_and!.
    + intros other Hne. by rewrite Hs', Hs.
    + exists (n1 ++ n2). split; [by rewrite Hn2, Hn1, app_assoc|].
      by apply Forall_app.
    + exists (u1 ++ u2). split; [by rewrite Hu2, Hu1, app_assoc|].
      by apply Forall_app.
    + by etrans.
    + by etrans.
    + by etrans.
    + lia.
  - intros w. unfold grows. frame_parts.
  - intros w e. unfold grows. frame_parts.
Qed.

#[local] Instance grows_outgoing user_id : Outgoing (grows user_id).
Proof. intros w s. unfold grows. frame_parts. Qed.

#[local] Instance grows_calling user_id : Calling (grows user_id).
Proof. intros w c. unfold grows. frame_parts. Qed.

Lemma grows_user_states user_id f w :
  (forall us other, other <> user_id -> f us !! other = us !! other) ->
  grows user_id w (with_user_states f w).
Proof. intros Hf. unfold grows. frame_parts. intros other Hne. by apply Hf. Qed.

Lemma grows_temp user_id f w : grows user_id w (with_temp f w).
Proof. unfold grows. frame_parts. Qed.

Lemma grows_insert_summary user_id t c now w :
  grows user_id w (with_summaries (insert_summary user_id t c now) w).
Proof.
  unfold grows. frame_parts.
  unfold insert_summary. eexists. split; [done|]. by repeat constructor.
Qed.

Lemma grows_insert_user user_id now w :
  grows user_id w (with_users (insert_or_ignore_user user_id now) w).
Proof.
  unfold grows. frame_parts.
  unfold insert_or_ignore_user.
  destruct (has_user user_id (users w)).
  - exists []. by rewrite app_nil_r.
  - eexists. split; [done|]. by repeat constructor.
Qed.

Ltac grows_step :=
  first
    [ apply frame_refl | apply grows_insert_summary | apply grows_insert_user
    | apply grows_temp
    | apply grows_user_states; intros ? ? ?;
      first [ by apply lookup_insert_ne | by apply lookup_delete_ne ] ].

Lemma dispatch_grows (m : message) :
  keeps (grows (msg_from m)) (dispatch env m).
Proof.
  unfold dispatch, start_cmd, handle_summary, handle_search, handle_photo,
    handle_notes, handle_calculator, handle_photo_message, handle_text.
  keeps_with grows_step.
Qed.

(** ** What the scheduler may touch *)

#[local] Instance reminds_frame ids : Frame (reminds ids).
Proof.
  split.
  - intros w. unfold reminds. frame_parts.
  - intros w1 w2 w3 (Hs & Hn & Ht & Hc & Hi & Hnn & new1 & Ho & Hf)
      (Hs' & Hn' & Ht' & Hc' & Hi' & Hnn' & new2 & Ho' & Hf').
    unfold reminds. split_and!; try congruence; [by auto|].
    exists (new1 ++ new2). split; [by rewrite Ho', Ho, app_assoc|].
    by apply Forall_app.
  - intros w. unfold reminds. frame_parts.
  - intros w e. unfold reminds. frame_parts.
Qed.

Lemma keeps_for_each_in {A} R `{!Frame R} (xs : list A) (f : A -> M unit) :
  (forall x, x ∈ xs -> keeps R (f x)) -> keeps R (for_each xs f).
Proof.
  induction xs as [|x xs IH]; intros Hf; [by apply keeps_ret|].
  cbn [for_each]. apply keeps_bind; [done| |].
  - apply Hf. by left.
  - intros _. apply IH. intros y Hy. apply Hf. by right.
Qed.

Lemma check_user_reminds ids row :
  row.1 ∈ ids -> keeps (reminds ids) (check_user env row).
Proof.
  intros Hin. unfold check_user.
  destruct row.2 as [last_active|]; [|by kapply keeps_ret].
  kapply keeps_bind; [kapply keeps_datetime_now|]. intros now.
  destruct (THREE_DAYS <? now - last_active); [|by kapply keeps_ret].
  kapply keeps_try_except; [|keeps_handler; by kapply keeps_ret].
  kapply keeps_bind.
  { kapply keeps_send_message_to. intros w ok. unfold reminds. frame_parts.
    eexists. split; [done|]. by repeat constructor. }
  intros _. kapply keeps_bind; [kapply keeps_datetime_now|]. intros now'.
  kapply keeps_sqlite. intros n w. cbn [fst]. unfold reminds. frame_parts.
  - apply update_last_active_ids.
  - intros Hall. unfold update_last_active. apply Forall_fmap.
    eapply Forall_impl; [done|]. intros [u la] Hsome. cbn in *.
    by destruct (u =? row.1).
Qed.

Lemma inactivity_check_reminds (w : World) :
  reminds (users w).*1 w (exec (inactivity_check env) w).
Proof.
  set (ids := (users w).*1).
  unfold inactivity_check. rewrite exec_try_except.
  assert (Hbody : reminds ids w
    (exec (let* rows := sqlite env (fun _ w => (w, users w)) in
           for_each rows (check_user env)) w)).
  { rewrite exec_bind. unfold sqlite at 1 2. unfold outcome, exec, bind, step.
    cbn. destruct (sqlite_ok env (tick w)); cbn; [|apply frame_tick].
    eapply frame_trans; [apply (frame_tick (R:=reminds ids))|].
    change (users (with_tick S w)) with (users w).
    apply (keeps_for_each_in (reminds ids)). intros row Hrow.
    apply check_user_reminds. by apply list_elem_of_fmap_2. }
  destruct (outcome _ w) as [[]|e]; [done|].
  eapply frame_trans; [done|]. by apply (keeps_logger (reminds ids)).
Qed.

(** ** The schema is kept *)

Lemma next_id_above tbl n : n ∈ tbl -> note_id n < next_id tbl.
Proof.
  unfold next_id. induction tbl as [|x tbl IH]; [by intros ?%elem_of_nil|].
  intros [->|Hin]%elem_of_cons; cbn; [lia|]. specialize (IH Hin). lia.
Qed.

Lemma next_id_positive tbl : 0 < next_id tbl.
Proof.
  unfold next_id. induction tbl as [|x tbl IH]; cbn; lia.
Qed.

Lemma insert_summary_wf user_id t c now tbl :
  notes_wf tbl -> notes_wf (insert_summary user_id t c now tbl).
Proof.
  intros [Hpos Hinc]. unfold insert_summary. split.
  - apply Forall_app. split; [done|]. repeat constructor. cbn.
    apply next_id_positive.
  - intros i j a b Ha Hb Hij.
    apply lookup_lt_Some in Hb as Hj. rewrite length_app in Hj. cbn in Hj.
    rewrite lookup_app_l in Ha by lia.
    destruct (decide (j < length tbl)%nat) as [Hlt|Hge].
    + rewrite lookup_app_l in Hb by done. by eapply Hinc.
    + rewrite lookup_app_r in Hb by lia.
      replace (j - length tbl)%nat with 0%nat in Hb by lia.
      cbn in Hb. injection Hb as <-. cbn.
      apply next_id_above. by eapply list_elem_of_lookup_2.
Qed.

#[local] Instance store_wf_frame : Frame (invariant store_wf).
Proof. split; unfold invariant; by eauto. Qed.

#[local] Instance store_wf_outgoing : Outgoing (invariant store_wf).
Proof. intros w s H. exact H. Qed.

#[local] Instance store_wf_calling : Calling (invariant store_wf).
Proof. intros w s H. exact H. Qed.

Ltac store_wf_step :=
  unfold invariant, store_wf; cbn; intros [? ?];
  first [ done
        | split; [done | by apply insert_summary_wf]
        | split; [by apply insert_or_ignore_user_wf | done] ].

Lemma dispatch_store_wf (m : message) :
  keeps (invariant store_wf) (dispatch env m).
Proof.
  unfold dispatch, start_cmd, handle_summary, handle_search, handle_photo,
    handle_notes, handle_calculator, handle_photo_message, handle_text.
  keeps_with store_wf_step.
Qed.

Lemma inactivity_check_store_wf (w : World) :
  store_wf w -> store_wf (exec (inactivity_check env) w).
Proof.
  intros [[Hnd Hnn] Hnotes].
  destruct (inactivity_check_reminds w)
    as (_ & Hsum & _ & _ & Hids & Hkeep & _).
  split; [split|]; [by rewrite Hids | by apply Hkeep | by rewrite Hsum].
Qed.

(** X3.  Whatever the message and whatever fails, handling a message
    leaves the pending action of every user other than its sender as it
    was. *)
Theorem message_leaves_other_users_pending (m : message) (w : World)
    (other : Z) :
  other <> msg_from m ->
  user_states (exec (dispatch env m) w) !! other = user_states w !! other.
Proof. intros Hne. by apply (dispatch_grows m w). Qed.

(** X4.  Whatever the message and whatever fails, handling it only appends
    to the two tables: the notes and user rows that were there stay in
    place unchanged, and what is added belongs to the sender.  The outbox
    only grows as well. *)
Theorem message_only_appends_to_store (m : message) (w : World) :
  let w' := exec (dispatch env m) w in
  (exists added, summaries w' = summaries w ++ added
     /\ Forall (fun n => note_user n = msg_from m) added)
  /\ (exists added, users w' = users w ++ added
       /\ Forall (fun r => r.1 = msg_from m) added)
  /\ outbox w `prefix_of` outbox w'.
Proof.
  destruct (dispatch_grows m w) as (_ & Hn & Hu & Ho & _). by split_and!.
Qed.

(** X5.  Whatever fails, a tick of the scheduler leaves pending actions,
    notes, files and recorded provider calls alone; the users table keeps
    its keys in order, stays well-formed if it was, and everything sent
    is the reminder text, without keyboard, to a user of the table. *)
Theorem inactivity_check_frame (w : World) :
  let w' := exec (inactivity_check env) w in
  user_states w' = user_states w
  /\ summaries w' = summaries w
  /\ temp w' = temp w
  /\ calls w' = calls w
  /\ (users w').*1 = (users w).*1
  /\ (users_wf (users w) -> users_wf (users w'))
  /\ exists new, outbox w' = outbox w ++ new
       /\ Forall (fun s => body s = REMINDER /\ markup s = None
                           /\ chat s ∈ (users w).*1) new.
Proof.
  destruct (inactivity_check_reminds w)
    as (Hs & Hn & Ht & Hc & Hi & Hnn & Hout).
  split_and!; try done.
  intros [Hnd Hall]. split; [by rewrite Hi | by apply Hnn].
Qed.

(** ** Runs of the process *)

Lemma run_cons ev evs w :
  run env (ev :: evs) w = run env evs (handle_event env w ev).
Proof. done. Qed.

Lemma handle_event_store_wf w ev :
  store_wf w -> store_wf (handle_event env w ev).
Proof.
  destruct ev as [m|]; cbn.
  - apply (dispatch_store_wf m w).
  - apply inactivity_check_store_wf.
Qed.

(** X6.  In every run of the process from a fresh database, whatever
    fails, both tables are as their schema says: [users] has one row per
    user and no NULL [last_active]; the ids of [summaries] are positive
    and strictly increasing in insertion order.  More generally a store
    that is so stays so. *)
Theorem schema_holds_in_every_run (evs : list event) :
  store_wf (run env evs fresh_world)
  /\ forall w, store_wf w -> store_wf (run env evs w).
Proof.
  assert (Hrun : forall w, store_wf w -> store_wf (run env evs w)).
  { induction evs as [|ev evs IH]; intros w Hw; [done|].
    rewrite run_cons. by apply IH, handle_event_store_wf. }
  split; [|done]. apply Hrun. split; [split|split].
  - apply NoDup_nil_2.
  - apply Forall_nil_2.
  - apply Forall_nil_2.
  - intros i j a b Ha. by destruct i.
Qed.

(** X7.  In every run, whatever fails: no note is ever removed or
    altered, no user row is ever removed, nothing leaves the outbox; and
    the pending action of a user who sends nothing in the run is at the
    end what it was at the start. *)
Theorem run_keeps_history (evs : list event) (w : World) :
  let w' := run env evs w in
  summaries w `prefix_of` summaries w'
  /\ (users w).*1 `prefix_of` (users w').*1
  /\ outbox w `prefix_of` outbox w'
  /\ forall user_id, user_id ∉ senders evs ->
       user_states w' !! user_id = user_states w !! user_id.
Proof.
  revert w. induction evs as [|ev evs IH]; intros w; [done|].
  rewrite run_cons. destruct (IH (handle_event env w ev)) as (Hn & Hu & Ho & Hs).
  assert (Hstep : summaries w `prefix_of` summaries (handle_event env w ev)
    /\ (users w).*1 `prefix_of` (users (handle_event env w ev)).*1
    /\ outbox w `prefix_of` outbox (handle_event env w ev)
    /\ forall user_id, user_id ∉ senders [ev] ->
         user_states (handle_event env w ev) !! user_id
         = user_states w !! user_id).
  { destruct ev as [m|]; cbn.
    - destruct (dispatch_grows m w)
        as (Hst & (na & Hna & _) & (ua & Hua & _) & Hout & _).
      split_and!; [by exists na | | done |].
      + rewrite Hua, fmap_app. by apply prefix_app_r.
      + intros user_id Hnin. apply Hst. intros ->. apply Hnin. by left.
    - destruct (inactivity_check_reminds w)
        as (Hst & Hsum & _ & _ & Hids & _ & new & Hnew & _).
      split_and!; [by rewrite Hsum | by rewrite Hids | by exists new |].
      intros user_id _. by rewrite Hst. }
  destruct Hstep as (Hn1 & Hu1 & Ho1 & Hs1).
  split_and!; [by etrans | by etrans | by etrans |].
  intros user_id Hnin. rewrite Hs.
  - apply Hs1. intros Hin. apply Hnin.
    destruct ev as [m|]; cbn in *; [|by apply elem_of_nil in Hin].
    apply elem_of_cons in Hin as [->|[]%elem_of_nil]. by left.
  - intros Hin. apply Hnin. destruct ev as [m|]; cbn; [by right | done].
Qed.

(** ** Routes of the dispatcher *)

#[local] Instance store_kept_frame : Frame store_kept.
Proof.
  split; unfold store_kept; try done.
  intros w1 w2 w3 (? & ? & ?) (? & ? & ?). split_and!; congruence.
Qed.

#[local] Instance store_kept_outgoing : Outgoing store_kept.
Proof. by intros w s. Qed.

#[local] Instance store_kept_calling : Calling store_kept.
Proof. by intros w c. Qed.

Ltac store_kept_step := by unfold store_kept.

(** Comparisons of two texts of the module are settled by computing. *)
Ltac compare_texts :=
  repeat match goal with
         | |- context [str_eqb ?a ?b] =>
           let v := eval vm_compute in (str_eqb a b) in
           change (str_eqb a b) with v
         end;
  cbv iota.

Lemma menu_tag_label text t :
  menu_tag text = Some t ->
  text = match t with
         | Summary => LABEL_SUMMARY | Search => LABEL_SEARCH
         | Photo => LABEL_PHOTO | ShowNotesList => LABEL_NOTES
         | Calculator => LABEL_CALCULATOR
         end.
Proof.
  unfold menu_tag. intros H.
  repeat case_match; simplify_eq; by apply str_eqb_eq.
Qed.

Lemma menu_tag_none text :
  menu_tag text = None ->
  str_eqb text LABEL_SUMMARY = false /\ str_eqb text LABEL_SEARCH = false
  /\ str_eqb text LABEL_PHOTO = false /\ str_eqb text LABEL_NOTES = false
  /\ str_eqb text LABEL_CALCULATOR = false.
Proof. unfold menu_tag. intros H. by repeat case_match. Qed.

Lemma handle_text_store_kept (m : message) (w : World) :
  user_states w !! msg_from m <> Some Summary ->
  store_kept w (exec (handle_text env m) w).
Proof.
  intros Hst. unfold handle_text. rewrite exec_bind.
  unfold outcome at 1, exec at 2, get_state, gets. cbn [fst snd].
  destruct (user_states w !! msg_from m) as [[]|]; try done;
    match goal with
    | |- store_kept w (exec ?f w) => enough (H : keeps store_kept f) by apply H
    end; keeps_with store_kept_step.
Qed.

Lemma handle_photo_message_store_kept (m : message) (w : World) :
  user_states w !! msg_from m <> Some Photo ->
  store_kept w (exec (handle_photo_message env m) w).
Proof.
  intros Hst. unfold handle_photo_message. rewrite exec_bind.
  unfold outcome at 1, exec at 2, get_state, gets. cbn [fst snd].
  destruct (user_states w !! msg_from m) as [[]|]; try done;
    apply (keeps_answer store_kept).
Qed.

(** X10.  Off the three writing routes, handling a message leaves both
    tables and the [temp/] directory exactly as they were, whatever
    fails: menu selections, searches, calculations, replays of a note,
    hints and dropped messages never write. *)
Theorem only_three_routes_write (m : message) (w : World) :
  may_write env m w = false ->
  let w' := exec (dispatch env m) w in
  summaries w' = summaries w /\ users w' = users w /\ temp w' = temp w.
Proof.
  unfold may_write. intros Hno.
  apply orb_false_elim in Hno as [Hcmd Hroute].
  change (store_kept w (exec (dispatch env m) w)).
  unfold dispatch. rewrite Hcmd.
  destruct (menu_tag (msg_text m)) as [t|] eqn:Htag.
  - apply menu_tag_label in Htag. rewrite Htag.
    destruct t; compare_texts;
      match goal with
      | |- store_kept w (exec ?f w) => enough (H : keeps store_kept f) by apply H
      end;
      unfold handle_summary, handle_search, handle_photo, handle_notes,
        handle_calculator, set_state;
      keeps_with store_kept_step.
  - rewrite bool_decide_eq_true_2 in Hroute by done. cbn in Hroute.
    destruct (menu_tag_none _ Htag) as (-> & -> & -> & -> & ->).
    destruct (decide (msg_photo m <> [])) as [Hphoto|Hphoto].
    + rewrite bool_decide_eq_true_2 by done.
      apply handle_photo_message_store_kept. intros Hst.
      rewrite Hst in Hroute. by apply bool_decide_eq_false in Hroute.
    + rewrite bool_decide_eq_false_2 by done.
      destruct (bool_decide (msg_text m <> [])); [|by apply frame_refl].
      apply handle_text_store_kept. intros Hst.
      rewrite Hst in Hroute. apply bool_decide_eq_false in Hroute.
      apply Hroute. by destruct (msg_photo m); [|destruct Hphoto].
Qed.

(** X8.  [/start] goes to [start_cmd] whatever is pending, and leaves
    every pending action, the notes, the files and the recorded provider
    calls as they were; the greeting with the keyboard is attempted
    whether or not the store works; when the store fails the error is
    logged and the users table is as before. *)
Theorem start_keeps_pending_and_greets (m : message) (w : World) :
  command_start env (msg_text m) = true ->
  let w' := exec (dispatch env m) w in
  user_states w' = user_states w
  /\ summaries w' = summaries w /\ temp w' = temp w /\ calls w' = calls w
  /\ outbox w' = outbox w
       ++ [ {| chat := msg_chat m; body := GREETING;
               markup := Some study_keyboard;
               delivered := telegram_ok env (S (S (tick w))) |} ]
  /\ (sqlite_ok env (S (tick w)) = false ->
      users w' = users w /\ log w' = log w ++ [SqliteError]).
Proof.
  intros Hcmd. unfold dispatch. rewrite Hcmd.
  unfold exec, start_cmd. unfold_monad. unfold_world. cbn.
  destruct (sqlite_ok env (S (tick w))); cbn;
    destruct (telegram_ok env (S (S (tick w)))); cbn; split_and!; done.
Qed.

(** X11.  A photo that arrives while no photo is awaited is answered with
    the hint and nothing else happens: it is not downloaded, no provider
    is called, and whatever else is pending stays pending. *)
Theorem photo_without_pending_gets_hint (m : message) (w : World) :
  msg_photo m <> [] -> msg_text m = [] ->
  user_states w !! msg_from m <> Some Photo ->
  dispatch env m w =
  (with_outbox
     (fun o => o ++ [ {| chat := msg_chat m; body := PHOTO_HINT;
                         markup := None;
                         delivered := telegram_ok env (tick w) |} ])
     (with_tick S w),
   if telegram_ok env (tick w) then Ok tt else Raised TelegramError).
Proof.
  intros Hphoto Htext Hst. unfold dispatch. rewrite Htext.
  change (command_start env []) with false. cbv iota.
  compare_texts.
  rewrite bool_decide_eq_true_2 by done.
  unfold handle_photo_message. unfold_monad.
  destruct (user_states w !! msg_from m) as [[]|]; try done;
    cbn; destruct (telegram_ok env (tick w)); reflexivity.
Qed.

(** X12.  A text that is neither a command nor a menu label, sent while a
    photo is awaited, is dropped without any reply: the world is exactly
    as before, and the photo is still awaited. *)
Theorem text_while_photo_pending_is_dropped (m : message) (w : World) :
  free_text env m = true ->
  user_states w !! msg_from m = Some Photo ->
  dispatch env m w = (w, Ok tt).
Proof.
  unfold free_text. intros Hfree Hst.
  repeat (apply andb_prop in Hfree as [Hfree ?]).
  repeat match goal with
         | H : bool_decide _ = true |- _ => apply bool_decide_eq_true in H
         | H : negb _ = true |- _ => apply negb_true_iff in H
         end.
  match goal with H : menu_tag _ = None |- _ =>
    destruct (menu_tag_none _ H) as (E1 & E2 & E3 & E4 & E5) end.
  unfold dispatch.
  match goal with H : command_start _ _ = false |- _ => rewrite H end.
  rewrite E1, E2, E3, E4, E5.
  match goal with H : msg_photo m = [] |- _ => rewrite H end.
  rewrite bool_decide_eq_false_2 by (by intros []).
  rewrite bool_decide_eq_true_2 by done.
  unfold handle_text. unfold_monad. by rewrite Hst.
Qed.

(** ** Providers *)

Ltac not_empty :=
  let E := fresh in
  intros E; apply (f_equal length) in E; rewrite ?length_app in E;
  vm_compute in E; discriminate E.

(** X13.  No provider ever returns the empty text: whatever comes back
    from Wikipedia, DuckDuckGo, Tesseract or Wolfram Alpha, a result that
    is returned has at least one character. *)
Theorem provider_results_are_not_empty (w : World) (arg text : pystr) :
  (outcome (generate_summary env arg) w = Ok text -> text <> [])
  /\ (outcome (search_info env arg) w = Ok text -> text <> [])
  /\ (outcome (ocr_from_photo env arg) w = Ok text -> text <> [])
  /\ (outcome (solve_math_problem env arg) w = Ok text -> text <> []).
Proof.
  unfold outcome, generate_summary, search_info, ocr_from_photo,
    solve_math_problem.
  unfold called, logger, bind, step, modify, ret, raise.
  unfold with_calls, with_tick. cbn [fst snd tick].
  split_and!.
  - destruct (wikipedia env (tick w) arg) as [[secs|]|e]; cbn;
      intros [= <-]; not_empty.
  - destruct (duckduckgo env (tick w) arg) as [[[abstract|] url]|e]; cbn.
    + destruct abstract; cbn; intros [= <-]; not_empty.
    + intros [= <-]; not_empty.
    + destruct e; cbn; intros [= <-]; not_empty.
  - destruct (tesseract env (tick w) arg) as [raw|e]; cbn.
    + destruct (strip raw); cbn; intros [= <-]; [not_empty | done].
    + destruct e; cbn; intros [= <-]; not_empty.
  - destruct (wolfram env (tick w) arg) as [[status solution]|e]; cbn.
    + destruct (status =? 501); cbn; intros [= <-]; not_empty.
    + destruct e; cbn; intros [= <-]; not_empty.
Qed.

(** X14.  [generate_summary] never raises.  The other three let through
    exactly the exceptions they do not name: [search_info] and
    [solve_math_problem] everything but a client error and a timeout,
    [ocr_from_photo] everything but a missing file, an unreadable image
    and an engine error. *)
Theorem provider_exceptions (w : World) (arg : pystr) (e : exn) :
  outcome (generate_summary env arg) w <> Raised e
  /\ (outcome (search_info env arg) w = Raised e <->
      duckduckgo env (tick w) arg = Raised e
      /\ e <> ClientError /\ e <> TimeoutError)
  /\ (outcome (ocr_from_photo env arg) w = Raised e <->
      tesseract env (tick w) arg = Raised e /\ ocr_caught e = false)
  /\ (outcome (solve_math_problem env arg) w = Raised e <->
      wolfram env (tick w) arg = Raised e
      /\ e <> ClientError /\ e <> TimeoutError).
Proof.
  unfold outcome, generate_summary, search_info, ocr_from_photo,
    solve_math_problem.
  unfold called, logger, bind, step, modify, ret, raise.
  unfold with_calls, with_tick. cbn [fst snd tick].
  split_and!.
  - by destruct (wikipedia env (tick w) arg) as [[secs|]|e'].
  - destruct (duckduckgo env (tick w) arg) as [[abstract url]|e']; cbn.
    + destruct (default [] abstract); cbn; (split; [done | by intros [? _]]).
    + destruct e'; cbn; split; try done; try (by intros [[= <-] [? ?]]);
        intros [= <-]; done.
  - destruct (tesseract env (tick w) arg) as [raw|e']; cbn.
    + destruct (strip raw); cbn; (split; [done | by intros [? _]]).
    + destruct e'; cbn; split; try done; try (by intros [[= <-] ?]);
        intros [= <-]; done.
  - destruct (wolfram env (tick w) arg) as [[status solution]|e']; cbn.
    + destruct (status =? 501); cbn; (split; [done | by intros [? _]]).
    + destruct e'; cbn; split; try done; try (by intros [[= <-] [? ?]]);
        intros [= <-]; done.
Qed.

(** ** Summaries and their replay *)

(** [generate_summary] always returns, and returns its two failure texts
    when the page is missing or the lookup fails. *)
Lemma generate_summary_returns (t : pystr) (w : World) :
  exists summary,
    outcome (generate_summary env t) w = Ok summary
    /\ (wikipedia env (tick w) t = Ok None -> summary = SUMMARY_NOT_FOUND)
    /\ (forall e, wikipedia env (tick w) t = Raised e ->
        summary = SUMMARY_FAILED).
Proof.
  unfold outcome, generate_summary.
  unfold called, logger, bind, step, modify, ret, raise.
  unfold with_calls, with_tick. cbn [fst snd tick].
  destruct (wikipedia env (tick w) t) as [[secs|]|e];
    eexists; (split; [reflexivity|]); split; congruence.
Qed.

(** The run of [handle_text] with [summary] pending, Telegram and the
    store working. *)
Lemma summary_run (m : message) (w : World) :
  user_states w !! msg_from m = Some Summary ->
  (forall n, telegram_ok env n = true) ->
  (forall n, sqlite_ok env n = true) ->
  let w' := exec (handle_text env m) w in
  exists summary,
    summaries w'
      = summaries w
        ++ [ {| note_id := next_id (summaries w); note_user := msg_from m;
                topic := msg_text m; content := summary;
                created_at := clock env (S (S (tick w))) |} ]
    /\ outbox w'
       = outbox w ++ reply_to m SUMMARY_PROGRESS
           :: map (reply_to m)
                (if (CHUNK <? length summary)%nat then chunks summary
                 else [summary])
    /\ user_states w' = delete (msg_from m) (user_states w)
    /\ calls w' = calls w ++ [CallSummary (msg_text m)]
    /\ (wikipedia env (S (tick w)) (msg_text m) = Ok None ->
        summary = SUMMARY_NOT_FOUND)
    /\ (forall e, wikipedia env (S (tick w)) (msg_text m) = Raised e ->
        summary = SUMMARY_FAILED).
Proof.
  intros Hst Htg Hsq. cbn zeta.
  unfold exec, handle_text. unfold_monad. rewrite Hst. cbn. rewrite Htg. cbn.
  match goal with |- context [generate_summary env ?t ?W] =>
    destruct (generate_summary_returns t W) as (summary & Hout & Hnf & Hfail);
    pose proof (generate_summary_world env t W) as Hw;
    unfold outcome in Hout; unfold exec in Hw;
    destruct (generate_summary env t W) as [w2 r2] eqn:E2
  end.
  cbn in Hout, Hw, Hnf, Hfail. subst r2.
  destruct Hw as (Hw1 & Hw2 & Hw3 & Hw4 & Hw5 & Hw6 & Hw7).
  exists summary. cbn. rewrite Hsq. cbn.
  rewrite answer_long_delivered by done. unfold_world. cbn.
  rewrite Hw1, Hw3, Hw5, Hw6, Hw7. cbn. unfold insert_summary.
  split_and!; try done. by rewrite <- app_assoc.
Qed.

(** X9.  With [summary] pending, Telegram and the store working, the text
    the user sends is looked up and whatever [generate_summary] returns is
    stored as a note under that text and is what is replied (after the
    progress message; in chunks if long); the pending action is removed.
    This includes the two failure texts: a topic that is not found, or a
    failed lookup, is stored as a note just like a summary. *)
Theorem summary_is_stored_as_replied (m : message) (w : World) :
  user_states w !! msg_from m = Some Summary ->
  (forall n, telegram_ok env n = true) ->
  (forall n, sqlite_ok env n = true) ->
  let w' := exec (handle_text env m) w in
  exists summary,
    summaries w'
      = summaries w
        ++ [ {| note_id := next_id (summaries w); note_user := msg_from m;
                topic := msg_text m; content := summary;
                created_at := clock env (S (S (tick w))) |} ]
    /\ outbox w'
       = outbox w ++ reply_to m SUMMARY_PROGRESS
           :: map (reply_to m)
                (if (CHUNK <? length summary)%nat then chunks summary
                 else [summary])
    /\ user_states w' = delete (msg_from m) (user_states w)
    /\ calls w' = calls w ++ [CallSummary (msg_text m)]
    /\ (wikipedia env (S (tick w)) (msg_text m) = Ok None ->
        summary = SUMMARY_NOT_FOUND)
    /\ (forall e, wikipedia env (S (tick w)) (msg_text m) = Raised e ->
        summary = SUMMARY_FAILED).
Proof. apply summary_run. Qed.

Lemma notes_of_insert_own user_id t c now tbl :
  notes_of user_id (insert_summary user_id t c now tbl)
  = notes_of user_id tbl
    ++ [ {| note_id := next_id tbl; note_user := user_id; topic := t;
            content := c; created_at := now |} ].
Proof.
  unfold notes_of, insert_summary. rewrite filter_app. f_equal.
  by rewrite filter_cons_True.
Qed.

Lemma notes_of_insert_other user_id other t c now tbl :
  other <> user_id ->
  notes_of other (insert_summary user_id t c now tbl) = notes_of other tbl.
Proof.
  intros Hne. unfold notes_of, insert_summary. rewrite filter_app.
  rewrite (filter_cons_False _ _ []) by (cbn; congruence).
  by rewrite app_nil_r.
Qed.

(** The run of [handle_notes] when there is a note to list. *)
Lemma notes_listed (m : message) (w : World) :
  notes_of (msg_from m) (summaries w) <> [] ->
  (forall n, telegram_ok env n = true) ->
  (forall n, sqlite_ok env n = true) ->
  let w' := exec (handle_notes env m) w in
  summaries w' = summaries w
  /\ user_states w' = <[msg_from m := ShowNotesList]> (user_states w)
  /\ outbox w'
     = outbox w
       ++ [reply_to m ((NOTES_HEADER
                        ++ notes_listing 1 (notes_of (msg_from m) (summaries w)))
                       ++ NOTES_FOOTER)].
Proof.
  intros Hnotes Htg Hsq. cbn zeta.
  unfold exec, handle_notes. unfold_monad. unfold_world. cbn.
  rewrite Hsq. cbn.
  destruct (notes_of (msg_from m) (summaries w)) as [|n l]; [done|].
  cbn. rewrite Htg. done.
Qed.

(** The replies of [handle_text] to a number that names a note. *)
Lemma note_replayed (m : message) (w : World) (k : Z) (note : Note) :
  user_states w !! msg_from m = Some ShowNotesList ->
  (forall n, telegram_ok env n = true) ->
  (forall n, sqlite_ok env n = true) ->
  py_int env (msg_text m) = Some k -> 1 <= k ->
  notes_of (msg_from m) (summaries w) !! Z.to_nat (k - 1) = Some note ->
  outbox (exec (handle_text env m) w)
  = outbox w
    ++ map (reply_to m)
         (if (CHUNK <? length (content note))%nat
          then chunks (content note)
          else [py "📘 Конспект: " ++ topic note ++ NL ++ NL
                ++ content note]).
Proof.
  intros Hst Htg Hsq Hint Hk Hnote.
  apply lookup_lt_Some in Hnote as Hlt.
  unfold exec, handle_text. unfold_monad. unfold_world.
  rewrite Hst, Hint, Hsq. cbn -[Z.leb Z.ltb].
  rewrite (proj2 (Z.leb_le 0 (k - 1))) by lia.
  rewrite (proj2 (Z.ltb_lt (k - 1) _)) by lia.
  cbn -[Z.leb Z.ltb]. rewrite Hnote.
  by rewrite answer_long_delivered.
Qed.

(** X15.  A summary can be played back: after a summary was generated
    for a user with N notes, listing the notes and sending N + 1 replays
    the text that was sent as the summary (in the same chunks when it is
    long, under a header with the topic when it is short). *)
Theorem stored_summary_can_be_replayed (m list_msg pick : message)
    (w : World) :
  user_states w !! msg_from m = Some Summary ->
  msg_from list_msg = msg_from m -> msg_from pick = msg_from m ->
  (forall n, telegram_ok env n = true) ->
  (forall n, sqlite_ok env n = true) ->
  py_int env (msg_text pick)
    = Some (Z.of_nat (length (notes_of (msg_from m) (summaries w))) + 1) ->
  let w1 := exec (handle_text env m) w in
  let w2 := exec (handle_notes env list_msg) w1 in
  let w3 := exec (handle_text env pick) w2 in
  exists summary,
    outbox w1
      = outbox w ++ reply_to m SUMMARY_PROGRESS
          :: map (reply_to m)
               (if (CHUNK <? length summary)%nat then chunks summary
                else [summary])
    /\ outbox w3
       = outbox w2
         ++ map (reply_to pick)
              (if (CHUNK <? length summary)%nat then chunks summary
               else [py "📘 Конспект: " ++ msg_text m ++ NL ++ NL
                     ++ summary]).
Proof.
  intros Hst Hlist Hpick Htg Hsq Hint w1 w2 w3.
  destruct (summary_run m w Hst Htg Hsq)
    as (summary & Hsum1 & Hout1 & _).
  fold w1 in Hsum1, Hout1.
  set (note := {| note_id := next_id (summaries w); note_user := msg_from m;
                  topic := msg_text m; content := summary;
                  created_at := clock env (S (S (tick w))) |}) in *.
  assert (Hnotes1 : notes_of (msg_from m) (summaries w1)
                    = notes_of (msg_from m) (summaries w) ++ [note]).
  { rewrite Hsum1. apply notes_of_insert_own. }
  destruct (notes_listed list_msg w1) as (Hsum2 & Hst2 & _); [|done|done|].
  { rewrite Hlist, Hnotes1. by destruct (notes_of _ (summaries w)). }
  fold w2 in Hsum2, Hst2.
  exists summary. split; [done|].
  unfold w3.
  rewrite (note_replayed pick w2
             (Z.of_nat (length (notes_of (msg_from m) (summaries w))) + 1)
             note); [done| |done|done|done|lia|].
  - by rewrite Hst2, Hpick, <- Hlist, lookup_insert_eq.
  - rewrite Hpick, Hsum2, Hnotes1.
    replace (Z.to_nat (Z.of_nat (length (notes_of (msg_from m) (summaries w)))
                       + 1 - 1))
      with (length (notes_of (msg_from m) (summaries w)) + 0)%nat by lia.
    by rewrite lookup_app_r, Nat.add_comm, Nat.add_sub by lia.
Qed.

(** ** Store failures in the scheduler *)

Lemma check_users_store_down (rows : list (Z * option Z)) (w0 : World) :
  (forall n, (tick w0 <= n)%nat -> sqlite_ok env n = false) ->
  let w1 := exec (for_each rows (check_user env)) w0 in
  users w1 = users w0 /\ log w1 = log w0 /\ (tick w0 <= tick w1)%nat
  /\ outcome (for_each rows (check_user env)) w0 = Ok tt.
Proof.
  revert w0. induction rows as [|row rows IH]; intros w0 Hdown; [done|].
  cbn [for_each]. rewrite exec_bind, outcome_bind.
  assert (Hrow : users (exec (check_user env row) w0) = users w0
    /\ log (exec (check_user env row) w0) = log w0
    /\ (tick w0 <= tick (exec (check_user env row) w0))%nat
    /\ outcome (check_user env row) w0 = Ok tt).
  { unfold exec, outcome, check_user.
    unfold try_except, send_message, datetime_now, sqlite, bind, step,
      modify, ret, raise.
    destruct row.2 as [t|]; [|done]. cbn.
    destruct (THREE_DAYS <? clock env (tick w0) - t); cbn;
      [|split_and!; try done; lia].
    destruct (telegram_ok env (S (tick w0))); cbn;
      [|split_and!; try done; lia].
    rewrite Hdown by lia. cbn. split_and!; try done; lia. }
  destruct Hrow as (Hu & Hl & Ht & Ho). rewrite Ho.
  destruct (IH (exec (check_user env row) w0)) as (Hu' & Hl' & Ht' & Ho').
  { intros n Hn. apply Hdown. lia. }
  split_and!; [congruence | congruence | lia | done].
Qed.

(** X16.  What [inactivity_check] does when the store fails.  If the
    SELECT fails, the error is logged and nothing is sent.  If only the
    UPDATEs fail, each failure is swallowed without a log line and the
    table is left unchanged, so a user who was due stays due on the next
    tick. *)
Theorem inactivity_check_store_failures (w : World) :
  (sqlite_ok env (tick w) = false ->
   exec (inactivity_check env) w
   = with_log (fun l => l ++ [SqliteError]) (with_tick S w))
  /\ (sqlite_ok env (tick w) = true ->
      (forall n, (tick w < n)%nat -> sqlite_ok env n = false) ->
      users (exec (inactivity_check env) w) = users w
      /\ log (exec (inactivity_check env) w) = log w).
Proof.
  split.
  - intros Hno. unfold exec, inactivity_check.
    unfold try_except, sqlite, logger, bind, step, modify, ret, raise.
    by rewrite Hno.
  - intros Hok Hdown.
    destruct (check_users_store_down (users w) (with_tick S w))
      as (Hu & Hl & _ & Ho).
    { intros n Hn. apply Hdown. cbn in Hn. lia. }
    assert (E : inactivity_check env w
                = for_each (users w) (check_user env) (with_tick S w)).
    { unfold inactivity_check, try_except, sqlite. unfold bind at 1 2.
      unfold step. rewrite Hok.
      change (users (with_tick S w)) with (users w).
      unfold outcome in Ho.
      destruct (for_each (users w) (check_user env) (with_tick S w))
        as [w1 r]. cbn in Ho. by subst r. }
    unfold exec in *. rewrite E. done.
Qed.

(** ** The size of a summary *)

(** X17.  For a page that exists, the summary is the header line followed
    by at most five blocks, one per section in the page's order, each of
    at most the title plus 507 characters, two line breaks apart; a page
    without sections gives the header line alone. *)
Theorem summary_size (t : pystr) (w : World)
    (page : list (pystr * pystr)) :
  wikipedia env (tick w) t = Ok (Some page) ->
  let header := py "📘 Конспект по теме '" ++ t ++ py "':" ++ NL ++ NL in
  exists blocks,
    outcome (generate_summary env t) w
      = Ok (header ++ join (NL ++ NL) blocks)
    /\ length blocks = (length page `min` 5)%nat
    /\ (forall i b, blocks !! i = Some b ->
        exists title text, page !! i = Some (title, text)
          /\ b = py "## " ++ title ++ NL ++ take 500 text ++ py "..."
          /\ (length b <= length title + 507)%nat)
    /\ (page = [] -> blocks = []).
Proof.
  intros Hpage header.
  unfold outcome, generate_summary.
  unfold called, logger, bind, step, modify, ret, raise.
  unfold with_calls, with_tick. cbn [fst snd tick]. rewrite Hpage.
  cbn [fst snd].
  exists (take 5 (map (fun s : pystr * pystr =>
                         py "## " ++ s.1 ++ NL ++ take 500 s.2 ++ py "...")
                      page)).
  split; [subst header; rewrite <- !app_assoc; reflexivity|].
  split; [|split].
  - rewrite length_take, length_map. lia.
  - intros i b Hb. apply lookup_take_Some in Hb as [Hb Hi].
    rewrite list_lookup_fmap in Hb.
    destruct (page !! i) as [[title text]|] eqn:Hp; [|done].
    cbn [fmap option_fmap option_map fst snd] in Hb.
    injection Hb as <-. exists title, text.
    split; [done|]. split; [done|].
    rewrite !length_app. cbn [length]. rewrite length_app, length_take.
    change (length (py "## ")) with 3%nat.
    change (length (py "...")) with 3%nat. lia.
  - by intros ->.
Qed.

End Frames.

(** * Concrete runs of the further properties *)

Lemma chunk_shapes_witness :
  let s := repeat 1103%N 4500 in
  let c := repeat 1103%N 500 in
  c = slice s (1 * CHUNK) (1 * CHUNK + CHUNK)
  /\ c <> []
  /\ ((2 < length (chunks s))%nat -> length c = CHUNK).
Proof.
  apply (chunk_shapes (repeat 1103%N 4500) 1 (repeat 1103%N 500)).
  vm_compute. reflexivity.
Defined.

Lemma long_reply_stops_at_refusal_witness :
  let env := flaky_env (fun n => (n =? 1)%nat) in
  let m := text_from_7 (py "я") in
  let s := repeat 1103%N 4500 in
  let c := repeat 1103%N 500 in
  outbox (exec (answer_long env m s s) fresh_world)
    = outbox fresh_world ++ map (reply_to m) (take 1 (chunks s))
        ++ [ {| chat := msg_chat m; body := c; markup := None;
                delivered := false |} ]
  /\ outcome (answer_long env m s s) fresh_world = Raised TelegramError.
Proof.
  apply (long_reply_stops_at_refusal (flaky_env (fun n => (n =? 1)%nat))
           (text_from_7 (py "я")) (repeat 1103%N 4500) (repeat 1103%N 4500)
           (repeat 1103%N 500) fresh_world 1).
  - apply Nat.ltb_lt. vm_compute. reflexivity.
  - vm_compute. reflexivity.
  - intros [|j] Hj; [reflexivity | lia].
  - reflexivity.
Defined.

Lemma message_leaves_other_users_pending_witness :
  let m := text_from_7 LABEL_SEARCH in
  let w := with_user_states (insert 8 Photo) (pending Summary) in
  user_states (exec (dispatch reliable_env m) w) !! 8 = user_states w !! 8.
Proof.
  apply (message_leaves_other_users_pending reliable_env
           (text_from_7 LABEL_SEARCH)
           (with_user_states (insert 8 Photo) (pending Summary)) 8).
  discriminate.
Defined.

Lemma start_keeps_pending_and_greets_witness :
  let env := reliable_env in
  let m := text_from_7 (py "/start") in
  let w := pending Summary in
  let w' := exec (dispatch env m) w in
  user_states w' = user_states w
  /\ summaries w' = summaries w /\ temp w' = temp w /\ calls w' = calls w
  /\ outbox w' = outbox w
       ++ [ {| chat := msg_chat m; body := GREETING;
               markup := Some study_keyboard;
               delivered := telegram_ok env (S (S (tick w))) |} ]
  /\ (sqlite_ok env (S (tick w)) = false ->
      users w' = users w /\ log w' = log w ++ [SqliteError]).
Proof.
  apply (start_keeps_pending_and_greets reliable_env
           (text_from_7 (py "/start")) (pending Summary)).
  reflexivity.
Defined.

Lemma summary_is_stored_as_replied_witness :
  let env := reliable_env in
  let m := text_from_7 (py "Фотосинтез") in
  let w := pending Summary in
  let w' := exec (handle_text env m) w in
  exists summary,
    summaries w'
      = summaries w
        ++ [ {| note_id := next_id (summaries w); note_user := msg_from m;
                topic := msg_text m; content := summary;
                created_at := clock env (S (S (tick w))) |} ]
    /\ outbox w'
       = outbox w ++ reply_to m SUMMARY_PROGRESS
           :: map (reply_to m)
                (if (CHUNK <? length summary)%nat then chunks summary
                 else [summary])
    /\ user_states w' = delete (msg_from m) (user_states w)
    /\ calls w' = calls w ++ [CallSummary (msg_text m)]
    /\ (wikipedia env (S (tick w)) (msg_text m) = Ok None ->
        summary = SUMMARY_NOT_FOUND)
    /\ (forall e, wikipedia env (S (tick w)) (msg_text m) = Raised e ->
        summary = SUMMARY_FAILED).
Proof.
  apply (summary_is_stored_as_replied reliable_env
           (text_from_7 (py "Фотосинтез")) (pending Summary)); reflexivity.
Defined.

Lemma only_three_routes_write_witness :
  let m := text_from_7 (py "2+2") in
  let w := pending Calculator in
  let w' := exec (dispatch reliable_env m) w in
  summaries w' = summaries w /\ users w' = users w /\ temp w' = temp w.
Proof.
  apply (only_three_routes_write reliable_env (text_from_7 (py "2+2"))
           (pending Calculator)).
  reflexivity.
Defined.

Lemma photo_without_pending_gets_hint_witness :
  let env := reliable_env in
  let m := photo_from_7 in
  let w := pending Summary in
  dispatch env m w =
  (with_outbox
     (fun o => o ++ [ {| chat := msg_chat m; body := PHOTO_HINT;
                         markup := None;
                         delivered := telegram_ok env (tick w) |} ])
     (with_tick S w),
   if telegram_ok env (tick w) then Ok tt else Raised TelegramError).
Proof.
  apply (photo_without_pending_gets_hint reliable_env photo_from_7
           (pending Summary)); [discriminate | reflexivity |].
  vm_compute. discriminate.
Defined.

Lemma text_while_photo_pending_is_dropped_witness :
  dispatch reliable_env (text_from_7 (py "привет")) (pending Photo)
  = (pending Photo, Ok tt).
Proof.
  apply (text_while_photo_pending_is_dropped reliable_env
           (text_from_7 (py "привет")) (pending Photo)); reflexivity.
Defined.

Lemma stored_summary_can_be_replayed_witness :
  let env := reliable_env in
  let m := text_from_7 (py "Фотосинтез") in
  let list_msg := text_from_7 LABEL_NOTES in
  let pick := text_from_7 (py "1") in
  let w := pending Summary in
  let w1 := exec (handle_text env m) w in
  let w2 := exec (handle_notes env list_msg) w1 in
  let w3 := exec (handle_text env pick) w2 in
  exists summary,
    outbox w1
      = outbox w ++ reply_to m SUMMARY_PROGRESS
          :: map (reply_to m)
               (if (CHUNK <? length summary)%nat then chunks summary
                else [summary])
    /\ outbox w3
       = outbox w2
         ++ map (reply_to pick)
              (if (CHUNK <? length summary)%nat then chunks summary
               else [py "📘 Конспект: " ++ msg_text m ++ NL ++ NL
                     ++ summary]).
Proof.
  apply (stored_summary_can_be_replayed reliable_env
           (text_from_7 (py "Фотосинтез")) (text_from_7 LABEL_NOTES)
           (text_from_7 (py "1")) (pending Summary)); reflexivity.
Defined.

Lemma summary_size_witness :
  let t := py "Фотосинтез" in
  let page := [(py "История", py "Текст раздела")] in
  let header := py "📘 Конспект по теме '" ++ t ++ py "':" ++ NL ++ NL in
  exists blocks,
    outcome (generate_summary reliable_env t) fresh_world
      = Ok (header ++ join (NL ++ NL) blocks)
    /\ length blocks = (length page `min` 5)%nat
    /\ (forall i b, blocks !! i = Some b ->
        exists title text, page !! i = Some (title, text)
          /\ b = py "## " ++ title ++ NL ++ take 500 text ++ py "..."
          /\ (length b <= length title + 507)%nat)
    /\ (page = [] -> blocks = []).
Proof.
  apply (summary_size reliable_env (py "Фотосинтез") fresh_world
           [(py "История", py "Текст раздела")]).
  reflexivity.
Defined.

Lemma inactivity_check_frame_witness :
  users_wf
    (users (exec (inactivity_check reliable_env)
              (with_user_7 T0 fresh_world))).
Proof.
  destruct (inactivity_check_frame reliable_env (with_user_7 T0 fresh_world))
    as (_ & _ & _ & _ & _ & H & _).
  apply H. split; cbn.
  - apply NoDup_singleton.
  - repeat constructor. by eexists.
Defined.

Lemma schema_holds_in_every_run_witness :
  store_wf
    (run reliable_env [Incoming (text_from_7 (py "/start")); Hour]
       (with_user_7 T0 fresh_world)).
Proof.
  apply (schema_holds_in_every_run reliable_env
           [Incoming (text_from_7 (py "/start")); Hour]).
  split; [split; cbn | split; cbn].
  - apply NoDup_singleton.
  - repeat constructor. by eexists.
  - apply Forall_nil_2.
  - intros i j a b Ha. by destruct i.
Defined.

Lemma run_keeps_history_witness :
  let evs := [Incoming (text_from_7 LABEL_SEARCH); Hour] in
  let w := with_user_states (insert 8 Photo) (pending Summary) in
  user_states (run reliable_env evs w) !! 8 = user_states w !! 8.
Proof.
  apply (run_keeps_history reliable_env
           [Incoming (text_from_7 LABEL_SEARCH); Hour]
           (with_user_states (insert 8 Photo) (pending Summary))).
  cbn. intros H. apply list_elem_of_singleton in H. discriminate H.
Defined.

Lemma provider_results_are_not_empty_witness :
  exists text,
    outcome (solve_math_problem reliable_env (py "2+2")) fresh_world = Ok text
    /\ text <> [].
Proof.
  eexists. split; [reflexivity |].
  eapply (provider_results_are_not_empty reliable_env fresh_world (py "2+2")).
  reflexivity.
Defined.

Lemma provider_exceptions_witness :
  let env :=
    {| telegram_ok := telegram_ok reliable_env;
       sqlite_ok := sqlite_ok reliable_env;
       clock := clock reliable_env;
       wikipedia := wikipedia reliable_env;
       duckduckgo := fun _ _ => Raised ValueError;
       tesseract := tesseract reliable_env;
       wolfram := wolfram reliable_env;
       py_int := parse_decimal;
       is_me := is_me reliable_env |} in
  outcome (search_info env (py "фотосинтез")) fresh_world = Raised ValueError.
Proof.
  intros env.
  apply (provider_exceptions env fresh_world (py "фотосинтез") ValueError).
  split_and!; [reflexivity | discriminate | discriminate].
Defined.

Lemma inactivity_check_store_failures_witness :
  exec (inactivity_check locked_db_env) fresh_world
  = with_log (fun l => l ++ [SqliteError]) (with_tick S fresh_world).
Proof.
  apply (inactivity_check_store_failures locked_db_env fresh_world).
  reflexivity.
Defined.
